(** * Confidex backend: meeting routes, room manager and signalling relay

    A shallow embedding of the parts of the Confidex backend that decide
    who is in which meeting and who receives which signalling event:

    - [RoomManager]    : [utils/roomManager.ts] (the in-memory [rooms] object);
    - [SocketIO]       : the behaviour of the socket.io server object that the
                         handlers rely on (rooms of the adapter, broadcast
                         operators);
    - [SocketHandlers] : [src/socketHandlers.ts];
    - [MeetingRoutes]  : the [/join], [/end] and [/kick] handlers of
                         [src/routes/meeting.ts] over the two tables of
                         [config/database.ts] they touch;
    - [Server]         : the whole process: one directory (database), one
                         [rooms] object, one socket.io server;
    - [Scenario]       : a few concrete states used as examples;
    - [Js], [Lib]      : JavaScript string operations; [bcryptjs],
                         [jsonwebtoken] and the environment as parameters;
    - [Accounts]       : the account tables of [config/database.ts] and the
                         mails of [config/email.ts];
    - [AuthRoutes]     : [src/routes/auth.ts];
    - [AuthMiddleware] : [src/middleware/auth.ts];
    - [SocketHandlersAuth] : the authenticated version of
                         [src/socketHandlers.ts], over the directory;
    - [MeetingRoutesAuth] : [/create] and [/details] of
                         [src/routes/meeting.ts], and the token check in
                         front of the meeting routes;
    - [Scenario2]      : an example library and example states. *)

From stdpp Require Import gmap strings list fin_maps.
From Stdlib Require Import Ascii.

Local Open Scope Z_scope.

(** ** utils/roomManager.ts *)

Module RoomManager.

(** [interface Rooms { [roomId:string]: string[] | undefined }].  The object
    is created as [{}]; every own property ever written is an array. *)
Abbreviation Rooms := (gmap string (list string)).

(** [const rooms: Rooms = {}]. *)
Definition empty_rooms : Rooms := ∅.

(** [{}] inherits from [Object.prototype]: reading [rooms[k]] for one of
    these names yields a (truthy) function or object that has no [push]. *)
Definition object_prototype_names : list string :=
  [ "constructor"; "__proto__"; "hasOwnProperty"; "isPrototypeOf";
    "propertyIsEnumerable"; "toLocaleString"; "toString"; "valueOf";
    "__defineGetter__"; "__defineSetter__"; "__lookupGetter__";
    "__lookupSetter__" ]%string.

Definition inherited (k : string) : bool :=
  bool_decide (k ∈ object_prototype_names).

(** [addUserToRoom(roomId, socketId)]:
    {[
      if(!rooms[roomId]){ rooms[roomId] = []; }
      rooms[roomId]!.push(socketId);
      return rooms[roomId]!.filter(id => id !== socketId);
    ]}
    [None] is the [TypeError] raised by [.push] when [roomId] names an
    inherited property; [rooms] is then left as it was. *)
Definition addUserToRoom (roomId socketId : string) (rooms : Rooms)
  : option (Rooms * list string) :=
  if inherited roomId then None
  else
    let arr := default [] (rooms !! roomId) ++ [socketId] in
    Some (<[roomId := arr]> rooms, filter (λ id, id ≠ socketId) arr).

(** [removeUserFromRoom(socketId)]:
    {[
      for(const roomId in rooms){
        rooms[roomId] = rooms[roomId]!.filter(id => id !== socketId);
      }
    ]} *)
Definition removeUserFromRoom (socketId : string) (rooms : Rooms) : Rooms :=
  filter (λ id, id ≠ socketId) <$> rooms.

(** [getRooms = () => rooms]. *)
Definition getRooms (rooms : Rooms) : Rooms := rooms.

End RoomManager.

(** ** JSON values

    The fields of a signalling payload are opaque to the server; only
    [target], [roomId], [caller] and [userId] are ever read or written. *)

#[warnings="-register-all"]
Inductive json :=
  | JNull
  | JBool (b : bool)
  | JNum (n : Z)
  | JStr (s : string)
  | JArr (items : list json)
  | JObj (fields : list (string * json)).

(** [o.k] when it is a string. *)
Definition string_field (o : gmap string json) (k : string) : option string :=
  match o !! k with
  | Some (JStr s) => Some s
  | _ => None
  end.

(** ** The socket.io server object

    What [socketHandlers.ts] uses of socket.io: every socket has an id and
    automatically joins the room named by its own id; [socket.join] adds it
    to further rooms; [io.to(r).emit] reaches every socket in room [r],
    [socket.to(r).emit] and [socket.broadcast.emit] reach the sockets of
    room [r], or all connected sockets, except those in the room named by
    the id of the sender; [socket.emit] reaches the socket itself.  [to]
    also takes an array of room names, and with an empty array selects no
    room, which the adapter reads as every socket.  Closing a socket takes
    it out of all rooms before the [disconnect] listeners run. *)

Module SocketIO.

(** The argument of an emitted event: the handlers emit a socket id, an
    array of socket ids, or an object. *)
Inductive EventData :=
  | DStr (s : string)
  | DList (l : list string)
  | DObj (o : gmap string json).

(** One event put on the wire for one receiving socket. *)
Record Packet := mkPacket {
  recipient : string;
  event : string;
  data : EventData
}.

Record Io := mkIo {
  connected : gset string;             (* io.sockets.sockets *)
  adapter : gmap string (gset string); (* adapter.rooms: room -> socket ids *)
  wire : list Packet                   (* everything sent so far, oldest first *)
}.

Definition empty_io : Io := mkIo ∅ ∅ [].

Definition members (io : Io) (room : string) : gset string :=
  default ∅ (adapter io !! room).

(** [socket.join(room)]. *)
Definition join (s room : string) (io : Io) : Io :=
  mkIo (connected io) (<[room := {[s]} ∪ members io room]> (adapter io)) (wire io).

(** A new connection: the socket is registered and joins its own room. *)
Definition connect (s : string) (io : Io) : Io :=
  join s s (mkIo ({[s]} ∪ connected io) (adapter io) (wire io)).

(** Transport close: the socket leaves every room and the server. *)
Definition close (s : string) (io : Io) : Io :=
  mkIo (connected io ∖ {[s]}) ((λ m, m ∖ {[s]}) <$> adapter io) (wire io).

(** The adapter hands a packet to every listed socket that still exists. *)
Definition send (to : list string) (ev : string) (d : EventData) (io : Io) : Io :=
  mkIo (connected io) (adapter io)
       (wire io ++ ((λ r, mkPacket r ev d) <$> filter (λ r, r ∈ connected io) to)).

(** [io.to(room).emit(ev, d)]. *)
Definition io_to_emit (room : string) (ev : string) (d : EventData) (io : Io) : Io :=
  send (elements (members io room)) ev d io.

(** The sockets a broadcast of socket [s] leaves out: the broadcast operator
    of a socket excepts the room named by its id, that is the sender, which
    is in that room from the connection on, and every socket that has
    joined a room of that name. *)
Definition excepted (s : string) (io : Io) : gset string :=
  {[s]} ∪ members io s.

(** [socket.to(room).emit(ev, d)]. *)
Definition socket_to_emit (s room : string) (ev : string) (d : EventData) (io : Io) : Io :=
  send (elements (members io room ∖ excepted s io)) ev d io.

(** [socket.broadcast.emit(ev, d)]. *)
Definition socket_broadcast_emit (s : string) (ev : string) (d : EventData) (io : Io) : Io :=
  send (elements (connected io ∖ excepted s io)) ev d io.

(** The rooms an array given to [to] names: its elements that are strings;
    any other element is the name of no room. *)
Definition room_names (items : list json) : list string :=
  omap (λ j, match j with JStr r => Some r | _ => None end) items.

(** The sockets [to(items)] selects: those of the rooms named, and every
    socket when the array is empty. *)
Definition selected (items : list json) (io : Io) : gset string :=
  match items with
  | [] => connected io
  | _ => ⋃ (members io <$> room_names items)
  end.

(** [io.to(items).emit(ev, d)] for an array [items]. *)
Definition io_to_rooms_emit (items : list json) (ev : string) (d : EventData) (io : Io) : Io :=
  send (elements (selected items io)) ev d io.

(** [socket.to(items).emit(ev, d)] for an array [items]. *)
Definition socket_to_rooms_emit (s : string) (items : list json) (ev : string)
    (d : EventData) (io : Io) : Io :=
  send (elements (selected items io ∖ excepted s io)) ev d io.

(** [socket.emit(ev, d)]. *)
Definition socket_emit (s : string) (ev : string) (d : EventData) (io : Io) : Io :=
  send [s] ev d io.

(** The packets addressed to [s], in sending order. *)
Definition inbox (s : string) (io : Io) : list Packet :=
  filter (λ p, recipient p = s) (wire io).

End SocketIO.

(** ** src/socketHandlers.ts *)

Module SocketHandlers.
Import SocketIO.

(** The two objects the listeners close over: the socket.io server and the
    [rooms] object of the room manager. *)
Record Srv := mkSrv {
  io : Io;
  rooms : gmap string (list string)
}.

Definition empty_srv : Srv := mkSrv empty_io RoomManager.empty_rooms.

Inductive Signal := Offer | Answer | IceCandidate.

Definition signal_event (k : Signal) : string :=
  match k with
  | Offer => "offer"
  | Answer => "answer"
  | IceCandidate => "ice-candidate"
  end.

Inductive ScreenSharing := Started | Stopped.

Definition screen_event (k : ScreenSharing) : string :=
  match k with
  | Started => "screen-sharing-started"
  | Stopped => "screen-sharing-stopped"
  end.

(** [io.on("connection", socket => ...)]: the listener only logs and
    installs the listeners below. *)
Definition on_connection (s : string) (st : Srv) : Srv :=
  mkSrv (connect s (io st)) (rooms st).

(** {[
      socket.on("join-room", (roomId, userId) => {
        socket.join(roomId);
        const otherUser = addUserToRoom(roomId, socket.id);
        socket.emit("all-users", otherUser);
        socket.to(roomId).emit("user-joined", socket.id);
      });
    ]}
    [userId] is not used.  [None]: [addUserToRoom] threw. *)
Definition on_join_room (s roomId userId : string) (st : Srv) : option Srv :=
  let io1 := join s roomId (io st) in
  '(rooms', otherUser) ← RoomManager.addUserToRoom roomId s (rooms st);
  let io2 := socket_emit s "all-users" (DList otherUser) io1 in
  let io3 := socket_to_emit s roomId "user-joined" (DStr s) io2 in
  Some (mkSrv io3 rooms').

(** {[
      socket.on("offer", (payload) => {
        io.to(payload.target).emit("offer", { ...payload, caller: socket.id });
      });
    ]}
    and the same for ["answer"] and ["ice-candidate"].  A [target] that is
    neither a string nor an array names no room. *)
Definition on_signal (k : Signal) (s : string) (payload : gmap string json)
    (st : Srv) : Srv :=
  let out := DObj (<["caller" := JStr s]> payload) in
  match string_field payload "target" with
  | Some target => mkSrv (io_to_emit target (signal_event k) out (io st)) (rooms st)
  | None =>
      match payload !! "target" with
      | Some (JArr items) =>
          mkSrv (io_to_rooms_emit items (signal_event k) out (io st)) (rooms st)
      | _ => st
      end
  end.

(** {[
      socket.on("screen-sharing-started", (data) => {
        socket.to(data.roomId).emit("screen-sharing-started",
                                    { userId: socket.id, ...data });
      });
    ]}
    and the same for ["screen-sharing-stopped"].  The spread comes after
    [userId], so the fields of [data] win. *)
Definition on_screen_sharing (k : ScreenSharing) (s : string)
    (data : gmap string json) (st : Srv) : Srv :=
  let out := DObj (data ∪ {["userId" := JStr s]}) in
  match string_field data "roomId" with
  | Some roomId => mkSrv (socket_to_emit s roomId (screen_event k) out (io st)) (rooms st)
  | None =>
      match data !! "roomId" with
      | Some (JArr items) =>
          mkSrv (socket_to_rooms_emit s items (screen_event k) out (io st)) (rooms st)
      | _ => st
      end
  end.

(** {[
      socket.on("disconnect", () => {
        removeUserFromRoom(socket.id);
        socket.broadcast.emit("user-left", socket.id);
      });
    ]}
    run by socket.io once the socket has been closed. *)
Definition on_disconnect (s : string) (st : Srv) : Srv :=
  let io1 := close s (io st) in
  mkSrv (socket_broadcast_emit s "user-left" (DStr s) io1)
        (RoomManager.removeUserFromRoom s (rooms st)).

End SocketHandlers.

(** ** config/database.ts (schema) and src/routes/meeting.ts *)

Module MeetingRoutes.

(** A row of [meetings]; the primary key [id] is the key of the table. *)
Record Meeting := mkMeeting {
  host_id : Z;
  title : string;
  status : string;            (* VARCHAR(20) DEFAULT 'active' *)
  max_participants : Z;
  created_at : Z;
  ended_at : option Z
}.

(** A row of [meeting_participants] (the serial [id] is never read). *)
Record Participant := mkParticipant {
  meeting_id : string;
  user_id : Z;
  socket_id : option string;
  joined_at : Z;              (* DEFAULT CURRENT_TIMESTAMP *)
  left_at : option Z
}.

Record Db := mkDb {
  meetings : gmap string Meeting;
  meeting_participants : list Participant
}.

Definition empty_db : Db := mkDb ∅ [].

(** What the handler passes to [res.json]. *)
Inductive Body :=
  | ErrorBody (error : string)
  | MessageBody (message : string)
  | JoinBody (message : string) (id : string) (title : string) (isHost : bool).

Record Response := mkResponse {
  code : Z;
  body : Body
}.

(** [WHERE meeting_id = $1 AND left_at IS NULL]. *)
Definition live_in (meetingId : string) (p : Participant) : Prop :=
  meeting_id p = meetingId ∧ left_at p = None.

#[global] Instance live_in_dec meetingId p : Decision (live_in meetingId p).
Proof. unfold live_in. apply _. Defined.

(** [(SELECT COUNT( * ) FROM meeting_participants
      WHERE meeting_id = m.id AND left_at IS NULL) as current_participants],
    read back with [parseInt]. *)
Definition current_participants (db : Db) (meetingId : string) : Z :=
  Z.of_nat (length (filter (live_in meetingId) (meeting_participants db))).

(** [WHERE meeting_id = $1 AND user_id = $2]. *)
Definition is_record (meetingId : string) (userId : Z) (p : Participant) : Prop :=
  meeting_id p = meetingId ∧ user_id p = userId.

#[global] Instance is_record_dec meetingId userId p :
  Decision (is_record meetingId userId p).
Proof. unfold is_record. apply _. Defined.

(** The row of (meeting, user), if any; [UNIQUE(meeting_id, user_id)]. *)
Definition record_of (db : Db) (meetingId : string) (userId : Z)
  : option Participant :=
  head (filter (is_record meetingId userId) (meeting_participants db)).

(** [INSERT INTO meeting_participants (meeting_id, user_id) VALUES ($1, $2)
     ON CONFLICT (meeting_id, user_id) DO NOTHING]. *)
Definition insert_participant (now : Z) (meetingId : string) (userId : Z)
    (rows : list Participant) : list Participant :=
  if decide (Exists (is_record meetingId userId) rows) then rows
  else rows ++ [mkParticipant meetingId userId None now None].

(** [UPDATE meeting_participants SET left_at = NOW() WHERE ...]. *)
Definition set_left (now : Z) (p : Participant) : Participant :=
  mkParticipant (meeting_id p) (user_id p) (socket_id p) (joined_at p) (Some now).

Definition update_left `{∀ p, Decision (P p)} (now : Z)
    (rows : list Participant) : list Participant :=
  (λ p, if decide (P p) then set_left now p else p) <$> rows.

(** [UPDATE meetings SET status = 'ended', ended_at = NOW() WHERE id = $2]. *)
Definition set_ended (now : Z) (m : Meeting) : Meeting :=
  mkMeeting (host_id m) (title m) "ended" (max_participants m) (created_at m)
            (Some now).

(** [router.post('/join/:meetingId', authenticateToken, ...)];
    [userId] is the [req.userId] set by [authenticateToken]. *)
Definition post_join (now : Z) (userId : Z) (meetingId : string) (db : Db)
  : Db * Response :=
  match meetings db !! meetingId with
  | None => (db, mkResponse 404 (ErrorBody "Meeting not found"))
  | Some meeting =>
      if decide (status meeting = "ended"%string) then
        (db, mkResponse 400 (ErrorBody "Meeting has ended"))
      else if decide (current_participants db meetingId >= max_participants meeting) then
        (db, mkResponse 400 (ErrorBody "Meeting is full"))
      else
        (mkDb (meetings db)
              (insert_participant now meetingId userId (meeting_participants db)),
         mkResponse 200
           (JoinBody "Authorized to join meeting" meetingId (title meeting)
                     (bool_decide (host_id meeting = userId))))
  end.

(** [router.post('/end/:meetingId', authenticateToken, ...)]. *)
Definition post_end (now : Z) (userId : Z) (meetingId : string) (db : Db)
  : Db * Response :=
  match meetings db !! meetingId with
  | None => (db, mkResponse 404 (ErrorBody "Meeting not found"))
  | Some meeting =>
      if decide (host_id meeting ≠ userId) then
        (db, mkResponse 403 (ErrorBody "Only host can end the meeting"))
      else
        (mkDb (<[meetingId := set_ended now meeting]> (meetings db))
              (update_left (P := live_in meetingId) now (meeting_participants db)),
         mkResponse 200 (MessageBody "Meeting ended successfully"))
  end.

(** [router.post('/kick/:meetingId/:userId', authenticateToken, ...)];
    [requester] is [req.userId].  The path parameter goes to the UPDATE as
    the text it is and is compared with the INTEGER column [user_id]:
    [userId] is the number that text spells, [None] when it spells none.
    The UPDATE fails on a text that spells no number and on a number that
    is no INTEGER, and the handler then answers 500. *)
Definition post_kick (now : Z) (requester : Z) (meetingId : string)
    (userId : option Z) (db : Db) : Db * Response :=
  match meetings db !! meetingId with
  | None => (db, mkResponse 404 (ErrorBody "Meeting not found"))
  | Some meeting =>
      if decide (host_id meeting ≠ requester) then
        (db, mkResponse 403 (ErrorBody "Only host can kick participants"))
      else
        match userId with
        | None => (db, mkResponse 500 (ErrorBody "Failed to kick participant"))
        | Some u =>
            if decide (u < -2147483648 ∨ 2147483647 < u) then
              (db, mkResponse 500 (ErrorBody "Failed to kick participant"))
            else
              (mkDb (meetings db)
                    (update_left (P := is_record meetingId u) now
                                 (meeting_participants db)),
               mkResponse 200 (MessageBody "Participant kicked successfully"))
        end
  end.

End MeetingRoutes.

(** ** The server process (server.ts)

    One database, one socket.io server and one [rooms] object; the HTTP
    routes are mounted under [/api/meeting] and the socket listeners are
    registered on [io]. *)

Module Server.
Import SocketIO SocketHandlers MeetingRoutes.

Record System := mkSystem {
  directory : Db;
  srv : Srv
}.

Definition initial : System := mkSystem empty_db empty_srv.

(** What reaches the process from outside.  The argument of a signalling
    or screen-sharing event is an object; an event sent with no argument,
    or with [null], is not among the inputs. *)
Inductive Input :=
  | Connection (s : string)
  | JoinRoom (s roomId userId : string)
  | Signalling (k : Signal) (s : string) (payload : gmap string json)
  | ScreenShare (k : ScreenSharing) (s : string) (data : gmap string json)
  | Disconnect (s : string)
  | PostJoin (now : Z) (userId : Z) (meetingId : string)
  | PostEnd (now : Z) (userId : Z) (meetingId : string)
  | PostKick (now : Z) (requester : Z) (meetingId : string) (userId : option Z).

(** Socket events come from connected sockets; a new connection gets a
    fresh id. *)
Definition enabled (i : Input) (sys : System) : Prop :=
  match i with
  | Connection s => s ∉ connected (io (srv sys))
  | JoinRoom s _ _ | Signalling _ s _ | ScreenShare _ s _ | Disconnect s =>
      s ∈ connected (io (srv sys))
  | PostJoin _ _ _ | PostEnd _ _ _ | PostKick _ _ _ _ => True
  end.

(** One input handled to completion.  The HTTP handlers only call [query];
    the socket listeners only use [io] and the room manager.  [None]: an
    exception escaped the listener. *)
Definition handle (i : Input) (sys : System) : option (System * option Response) :=
  match i with
  | Connection s => Some (mkSystem (directory sys) (on_connection s (srv sys)), None)
  | JoinRoom s roomId userId =>
      st ← on_join_room s roomId userId (srv sys);
      Some (mkSystem (directory sys) st, None)
  | Signalling k s payload =>
      Some (mkSystem (directory sys) (on_signal k s payload (srv sys)), None)
  | ScreenShare k s data =>
      Some (mkSystem (directory sys) (on_screen_sharing k s data (srv sys)), None)
  | Disconnect s =>
      Some (mkSystem (directory sys) (on_disconnect s (srv sys)), None)
  | PostJoin now userId meetingId =>
      let '(db, r) := post_join now userId meetingId (directory sys) in
      Some (mkSystem db (srv sys), Some r)
  | PostEnd now userId meetingId =>
      let '(db, r) := post_end now userId meetingId (directory sys) in
      Some (mkSystem db (srv sys), Some r)
  | PostKick now requester meetingId userId =>
      let '(db, r) := post_kick now requester meetingId userId (directory sys) in
      Some (mkSystem db (srv sys), Some r)
  end.

(** The states a run of the process can be in.  The process starts with
    whatever the database holds and with nothing in memory. *)
Inductive reachable : System → Prop :=
  | reachable_start db : reachable (mkSystem db empty_srv)
  | reachable_step i sys sys' r :
      reachable sys → enabled i sys → handle i sys = Some (sys', r) →
      reachable sys'.

(** Running a list of inputs from a state. *)
Fixpoint run (inputs : list Input) (sys : System) : option System :=
  match inputs with
  | [] => Some sys
  | i :: rest => '(sys', _) ← handle i sys; run rest sys'
  end.

(** Every connected socket is in the socket.io room of its own id, rooms
    only hold connected sockets, and a socket listed in [rooms] under a room
    id is in the socket.io room of that id. *)
Definition consistent (st : Srv) : Prop :=
  (∀ s, s ∈ connected (io st) → s ∈ members (io st) s) ∧
  (∀ room s, s ∈ members (io st) room → s ∈ connected (io st)) ∧
  (∀ room l s, rooms st !! room = Some l → s ∈ l → s ∈ members (io st) room).

End Server.

(** ** Example states *)

Module Scenario.
Import SocketIO SocketHandlers MeetingRoutes Server.

(** The row [/create] inserts for user 1 when [MAX_PARTICIPANTS] is [cap]. *)
Definition meeting_of_1 (cap : Z) : Meeting :=
  mkMeeting 1 "standup" "active" cap 0 None.

(** The process just started; meeting "m" is in the database. *)
Definition started (cap : Z) : System :=
  mkSystem (mkDb {["m" := meeting_of_1 cap]} []) empty_srv.

(** Users 1 and 2 joined "m" at times 0 and 1; the host kicked user 2 at
    time 5. *)
Definition db_after_kick : Db :=
  mkDb {["m" := meeting_of_1 10]}
       [mkParticipant "m" 1 None 0 None; mkParticipant "m" 2 None 1 (Some 5)].

(** Users 1 and 2 joined "m"; socket "a" connected and joined room "m". *)
Definition in_meeting : list Input :=
  [PostJoin 0 1 "m"; PostJoin 1 2 "m"; Connection "a"; JoinRoom "a" "m" "1"].

End Scenario.

(** ** JavaScript strings *)

Module Js.

(** [s.split(sep)] for a separator of one character. *)
Fixpoint split (sep : ascii) (s : string) : list string :=
  match s with
  | EmptyString => [EmptyString]
  | String c s' =>
      if decide (c = sep) then EmptyString :: split sep s'
      else match split sep s' with
           | h :: t => String c h :: t
           | [] => [String c EmptyString]
           end
  end.

(** [s.includes(c)] for one character. *)
Fixpoint includes (c : ascii) (s : string) : bool :=
  match s with
  | EmptyString => false
  | String c' s' => bool_decide (c' = c) || includes c s'
  end.

(** [!v] for a value that is a string or [undefined]. *)
Definition falsy (v : option string) : bool :=
  match v with
  | None => true
  | Some s => bool_decide (s = EmptyString)
  end.

(** An environment variable inside a template literal. *)
Definition template (v : option string) : string := default "undefined"%string v.

End Js.

(** ** The libraries and the environment of the account routes

    [bcryptjs], [jsonwebtoken] and the process environment, as far as
    [routes/auth.ts], [middleware/auth.ts] and [config/email.ts] use them.
    The salt of [bcrypt.hash], the value of [uuidv4()], the clock and the
    outcome of [transporter.sendMail] are inputs of a request. *)

Record Lib := mkLib {
  bcrypt_hash : string → string → string;          (* salt, password *)
  bcrypt_compare : string → string → bool;         (* password, hash *)
  jwt_sign : string → Z → Z → string → option string;
                                  (* secret, clock, userId, email; None: throws *)
  jwt_verify : option string → Z → string → option (Z * string);
                                  (* secret, clock, token; None: throws *)
  JWT_SECRET : option string;
  FRONTEND_URL : option string;
  EMAIL_FROM : option string
}.

(** ** config/database.ts: the account tables; config/email.ts *)

Module Accounts.

(** A row of [users] ([created_at] and [updated_at] are never read). *)
Record User := mkUser {
  id : Z;
  email : string;
  password : string;
  name : string;
  is_verified : bool
}.

(** A row of [verification_tokens]. *)
Record VerificationToken := mkVerificationToken {
  vt_user_id : Z;
  vt_token : string;
  vt_expires_at : Z
}.

(** A row of [password_reset_tokens]. *)
Record ResetToken := mkResetToken {
  rt_user_id : Z;
  rt_token : string;
  rt_expires_at : Z;
  rt_used : bool
}.

(** What [transporter.sendMail] is given; [link] is the URL the [html]
    template is built around. *)
Record Mail := mkMail {
  mail_from : option string;
  mail_to : string;
  subject : string;
  link : string
}.

Record AccountDb := mkAccountDb {
  users : list User;
  users_id_seq : Z;                    (* last value of the SERIAL sequence *)
  verification_tokens : list VerificationToken;
  password_reset_tokens : list ResetToken;
  sent : list Mail                     (* mails handed to the SMTP server *)
}.

Definition empty_accounts : AccountDb := mkAccountDb [] 0 [] [] [].

(** [SELECT ... FROM users WHERE email = $1], first row. *)
Definition user_by_email (db : AccountDb) (e : string) : option User :=
  head (filter (λ u, email u = e) (users db)).

(** [SELECT ... FROM users WHERE id = $1], first row. *)
Definition user_by_id (db : AccountDb) (i : Z) : option User :=
  head (filter (λ u, id u = i) (users db)).

(** [email VARCHAR(255) UNIQUE], [id SERIAL PRIMARY KEY]: what the schema
    promises about [users]. *)
Definition constraints (db : AccountDb) : Prop :=
  NoDup (email <$> users db) ∧
  NoDup (id <$> users db) ∧
  Forall (λ u, id u <= users_id_seq db) (users db).

(** [sendVerificationEmail(email, token)]. *)
Definition verification_mail (lib : Lib) (to token : string) : Mail :=
  mkMail (EMAIL_FROM lib) to "Verify Your Email - WebRTC App"
         (Js.template (FRONTEND_URL lib) +:+ "/verify-email?token=" +:+ token).

(** [sendPasswordResetEmail(email, token)]. *)
Definition reset_mail (lib : Lib) (to token : string) : Mail :=
  mkMail (EMAIL_FROM lib) to "Password Reset - WebRTC App"
         (Js.template (FRONTEND_URL lib) +:+ "/reset-password?token=" +:+ token).

End Accounts.

(** ** src/routes/auth.ts *)

Module AuthRoutes.
Import Accounts.

(** [{ id, email, name }] as sent back to the client. *)
Record PublicUser := mkPublicUser {
  pu_id : Z;
  pu_email : string;
  pu_name : string
}.

Definition public (u : User) : PublicUser := mkPublicUser (id u) (email u) (name u).

Inductive AuthBody :=
  | AuthError (error : string)
  | AuthMessage (message : string)
  | Registered (message : string) (user : PublicUser)
  | LoggedIn (token : string) (user : PublicUser).

Record AuthResponse := mkAuthResponse {
  auth_code : Z;
  auth_body : AuthBody
}.

(** [router.post('/register', ...)] after validation.  [salt], [token],
    [now] and [smtp_ok] are what [bcrypt.hash], [uuidv4()], [Date.now()] and
    [sendMail] come up with.  [registerValidation] bounds the length of the
    name from below only, and the column is [name VARCHAR(255)]: the INSERT
    into [users] fails on a longer name and writes nothing.  (A validated
    email and a bcrypt hash are shorter than that.)  The three queries are
    not in a transaction: what was written before a failure stays. *)
Definition post_register (lib : Lib) (salt token : string) (now : Z)
    (smtp_ok : bool) (e pw n : string) (db : AccountDb)
  : AccountDb * AuthResponse :=
  match user_by_email db e with
  | Some _ => (db, mkAuthResponse 400 (AuthError "Email already registered"))
  | None =>
      let hashedPassword := bcrypt_hash lib salt pw in
      if decide (255 < String.length n)%nat then
        (* value too long for type character varying(255) *)
        (db, mkAuthResponse 500 (AuthError "Registration failed"))
      else
      let user := mkUser (users_id_seq db + 1) e hashedPassword n false in
      let db1 := mkAccountDb (users db ++ [user]) (users_id_seq db + 1)
                   (verification_tokens db) (password_reset_tokens db) (sent db) in
      if decide (Exists (λ t, vt_token t = token) (verification_tokens db1)) then
        (* UNIQUE(token) violated *)
        (db1, mkAuthResponse 500 (AuthError "Registration failed"))
      else
        let db2 := mkAccountDb (users db1) (users_id_seq db1)
                     (verification_tokens db1 ++
                        [mkVerificationToken (id user) token (now + 24 * 60 * 60 * 1000)])
                     (password_reset_tokens db1) (sent db1) in
        if smtp_ok then
          (mkAccountDb (users db2) (users_id_seq db2) (verification_tokens db2)
                       (password_reset_tokens db2)
                       (sent db2 ++ [verification_mail lib e token]),
           mkAuthResponse 201
             (Registered
                "Registration successful! Please check your email to verify your account."
                (public user)))
        else (db2, mkAuthResponse 500 (AuthError "Registration failed"))
  end.

(** [router.get('/verify-email/:token', ...)]. *)
Definition get_verify_email (now : Z) (token : string) (db : AccountDb)
  : AccountDb * AuthResponse :=
  match head (filter (λ t, vt_token t = token) (verification_tokens db)) with
  | None => (db, mkAuthResponse 400 (AuthError "Invalid verification token"))
  | Some row =>
      if decide (now > vt_expires_at row) then
        (db, mkAuthResponse 400 (AuthError "Verification token expired"))
      else
        (mkAccountDb
           ((λ u, if decide (id u = vt_user_id row)
                  then mkUser (id u) (email u) (password u) (name u) true else u)
              <$> users db)
           (users_id_seq db)
           (filter (λ t, vt_token t ≠ token) (verification_tokens db))
           (password_reset_tokens db) (sent db),
         mkAuthResponse 200
           (AuthMessage "Email verified successfully! You can now login."))
  end.

(** [router.post('/login', ...)] after validation; it only reads. *)
Definition post_login (lib : Lib) (now : Z) (e pw : string) (db : AccountDb)
  : AuthResponse :=
  match user_by_email db e with
  | None => mkAuthResponse 401 (AuthError "Invalid credentials")
  | Some user =>
      if negb (bcrypt_compare lib pw (password user)) then
        mkAuthResponse 401 (AuthError "Invalid credentials")
      else if negb (is_verified user) then
        mkAuthResponse 403 (AuthError "Please verify your email before logging in")
      else
        match JWT_SECRET lib with
        | Some secret =>
            if decide (secret = EmptyString) then
              mkAuthResponse 500 (AuthError "Login failed")
            else
              match jwt_sign lib secret now (id user) (email user) with
              | Some token => mkAuthResponse 200 (LoggedIn token (public user))
              | None => mkAuthResponse 500 (AuthError "Login failed")
              end
        | None => mkAuthResponse 500 (AuthError "Login failed")
        end
  end.

(** [router.post('/forgot-password', ...)] after validation. *)
Definition post_forgot_password (lib : Lib) (token : string) (now : Z)
    (smtp_ok : bool) (e : string) (db : AccountDb) : AccountDb * AuthResponse :=
  match user_by_email db e with
  | None =>
      (db, mkAuthResponse 200
             (AuthMessage "If the email exists, a reset link has been sent"))
  | Some user =>
      if decide (Exists (λ t, rt_token t = token) (password_reset_tokens db)) then
        (db, mkAuthResponse 500 (AuthError "Request failed"))
      else
        let db1 := mkAccountDb (users db) (users_id_seq db) (verification_tokens db)
                     (password_reset_tokens db ++
                        [mkResetToken (id user) token (now + 60 * 60 * 1000) false])
                     (sent db) in
        if smtp_ok then
          (mkAccountDb (users db1) (users_id_seq db1) (verification_tokens db1)
                       (password_reset_tokens db1)
                       (sent db1 ++ [reset_mail lib e token]),
           mkAuthResponse 200
             (AuthMessage "If the email exists, a reset link has been sent"))
        else (db1, mkAuthResponse 500 (AuthError "Request failed"))
  end.

(** [router.post('/reset-password', ...)] after validation. *)
Definition post_reset_password (lib : Lib) (salt : string) (now : Z)
    (token newPassword : string) (db : AccountDb) : AccountDb * AuthResponse :=
  match head (filter (λ t, rt_token t = token) (password_reset_tokens db)) with
  | None => (db, mkAuthResponse 400 (AuthError "Invalid reset token"))
  | Some row =>
      if rt_used row then
        (db, mkAuthResponse 400 (AuthError "Token already used"))
      else if decide (now > rt_expires_at row) then
        (db, mkAuthResponse 400 (AuthError "Reset token expired"))
      else
        let hashedPassword := bcrypt_hash lib salt newPassword in
        (mkAccountDb
           ((λ u, if decide (id u = rt_user_id row)
                  then mkUser (id u) (email u) hashedPassword (name u) (is_verified u)
                  else u) <$> users db)
           (users_id_seq db)
           (verification_tokens db)
           ((λ t, if decide (rt_token t = token)
                  then mkResetToken (rt_user_id t) (rt_token t) (rt_expires_at t) true
                  else t) <$> password_reset_tokens db)
           (sent db),
         mkAuthResponse 200
           (AuthMessage "Password reset successful! You can now login."))
  end.

End AuthRoutes.

(** ** src/middleware/auth.ts *)

Module AuthMiddleware.
Import Accounts AuthRoutes.

(** Either the middleware answers itself, or it calls [next()] with
    [req.userId] and [req.userEmail] set. *)
Inductive Outcome :=
  | Refused (r : AuthResponse)
  | Next (userId : Z) (userEmail : string).

(** [authHeader && authHeader.split(' ')[1]]. *)
Definition bearer (authHeader : option string) : option string :=
  match authHeader with
  | None => None
  | Some h => if decide (h = EmptyString) then Some EmptyString
              else Js.split " "%char h !! 1%nat
  end.

(** [authenticateToken(req, res, next)].  [id] is an INTEGER column: no row
    has an id outside that range, and for such a [decoded.userId] the SELECT
    fails, which the [catch] answers. *)
Definition authenticateToken (lib : Lib) (now : Z) (authHeader : option string)
    (db : AccountDb) : Outcome :=
  match bearer authHeader with
  | None => Refused (mkAuthResponse 401 (AuthError "Access token required"))
  | Some token =>
      if decide (token = EmptyString) then
        Refused (mkAuthResponse 401 (AuthError "Access token required"))
      else
        match jwt_verify lib (JWT_SECRET lib) now token with
        | None => Refused (mkAuthResponse 403 (AuthError "Invalid or expired token"))
        | Some (userId, userEmail) =>
            match user_by_id db userId with
            | None =>
                if decide (userId < -2147483648 ∨ 2147483647 < userId) then
                  Refused (mkAuthResponse 403 (AuthError "Invalid or expired token"))
                else Refused (mkAuthResponse 401 (AuthError "User not found"))
            | Some user =>
                if is_verified user then Next userId userEmail
                else Refused (mkAuthResponse 403 (AuthError "Email not verified"))
            end
        end
  end.

End AuthMiddleware.

(** ** src/socketHandlers.ts with authentication

    The version of [registerSocketHandlers] that goes with the database:
    sockets are authenticated when they connect, [join-room] checks the
    directory, and the room manager is not used.  A listener is taken to run
    from its first query to its last emit without another one in between. *)

Module SocketHandlersAuth.
Import SocketIO MeetingRoutes Accounts.
Export SocketHandlers (Signal (..), ScreenSharing (..), signal_event, screen_event).

(** [interface SocketWithAuth]: what the listeners keep on the socket. *)
Record SocketWithAuth := mkSocketWithAuth {
  userId : Z;
  userEmail : string;
  meetingId : option string
}.

Record Hub := mkHub {
  hub_io : Io;
  hub_sockets : gmap string SocketWithAuth;   (* the connected socket objects *)
  hub_db : Db
}.

Definition empty_hub (db : Db) : Hub := mkHub empty_io ∅ db.

(** [socket.leave(room)]. *)
Definition leave (s room : string) (io : Io) : Io :=
  mkIo (connected io) (alter (λ m, m ∖ {[s]}) room (adapter io)) (wire io).

(** [{ message: msg }]. *)
Definition message (msg : string) : EventData :=
  DObj {["message"%string := JStr msg]}.

(** [io.use(async (socket, next) => ...)]: [inl] is the message of the error
    handed to [next], [inr] what is stored on the socket. *)
Definition handshake (lib : Lib) (now : Z) (token : option string)
    (accounts : AccountDb) : string + (Z * string) :=
  match token with
  | None => inl "Authentication token required"%string
  | Some t =>
      if decide (t = EmptyString) then inl "Authentication token required"%string
      else
        match jwt_verify lib (JWT_SECRET lib) now t with
        | None => inl "Invalid authentication token"%string
        | Some (uid, em) =>
            match user_by_id accounts uid with
            | None =>
                if decide (uid < -2147483648 ∨ 2147483647 < uid) then
                  inl "Invalid authentication token"%string
                else inl "Invalid or unverified user"%string
            | Some u =>
                if is_verified u then inr (uid, em)
                else inl "Invalid or unverified user"%string
            end
        end
  end.

(** A connection that passed the middleware. *)
Definition on_connection_auth (s : string) (uid : Z) (em : string) (hub : Hub) : Hub :=
  mkHub (connect s (hub_io hub))
        (<[s := mkSocketWithAuth uid em None]> (hub_sockets hub))
        (hub_db hub).

(** [INSERT INTO meeting_participants (meeting_id, user_id, socket_id)
     VALUES ($1, $2, $3) ON CONFLICT (meeting_id, user_id)
     DO UPDATE SET socket_id = $3, joined_at = NOW(), left_at = NULL]. *)
Definition upsert_participant (now : Z) (meetingId : string) (uid : Z)
    (s : string) (rows : list Participant) : list Participant :=
  if decide (Exists (is_record meetingId uid) rows) then
    (λ p, if decide (is_record meetingId uid p)
          then mkParticipant (meeting_id p) (user_id p) (Some s) now None
          else p) <$> rows
  else rows ++ [mkParticipant meetingId uid (Some s) now None].

(** [SELECT socket_id, user_id FROM meeting_participants
     WHERE meeting_id = $1 AND left_at IS NULL AND socket_id != $2],
    mapped to [socket_id]; a null [socket_id] does not satisfy [!=]. *)
Definition other_users (roomId s : string) (rows : list Participant) : list string :=
  omap (λ p, match socket_id p with
             | Some sid =>
                 if decide (meeting_id p = roomId ∧ left_at p = None ∧ sid ≠ s)
                 then Some sid else None
             | None => None
             end) rows.

(** [socket.emit("error", { message: msg })]. *)
Definition emit_error (s msg : string) (hub : Hub) : Hub :=
  mkHub (socket_emit s "error" (message msg) (hub_io hub))
        (hub_sockets hub) (hub_db hub).

(** [socket.on("join-room", async (roomId) => ...)]. *)
Definition on_join_room_auth (now : Z) (s roomId : string) (hub : Hub) : Hub :=
  match hub_sockets hub !! s with
  | None => hub
  | Some sock =>
      match meetings (hub_db hub) !! roomId with
      | None => emit_error s "Meeting not found" hub
      | Some meeting =>
          if decide (status meeting = "ended"%string) then
            emit_error s "Meeting has ended" hub
          else if decide (current_participants (hub_db hub) roomId
                          >= max_participants meeting) then
            emit_error s "Meeting is full" hub
          else if decide (record_of (hub_db hub) roomId (userId sock) = None
                          ∧ host_id meeting ≠ userId sock) then
            emit_error s "Not authorized to join this meeting" hub
          else
            let rows := upsert_participant now roomId (userId sock) s
                          (meeting_participants (hub_db hub)) in
            let io1 := join s roomId (hub_io hub) in
            let otherUsers := other_users roomId s rows in
            let io2 := socket_emit s "all-users" (DList otherUsers) io1 in
            let io3 := socket_to_emit s roomId "user-joined" (DStr s) io2 in
            mkHub io3
                  (<[s := mkSocketWithAuth (userId sock) (userEmail sock) (Some roomId)]>
                     (hub_sockets hub))
                  (mkDb (meetings (hub_db hub)) rows)
      end
  end.

(** The ["offer"], ["answer"] and ["ice-candidate"] listeners. *)
Definition on_signal_auth (k : Signal) (s : string) (payload : gmap string json)
    (hub : Hub) : Hub :=
  match string_field payload "target" with
  | Some target =>
      mkHub (io_to_emit target (signal_event k)
               (DObj (<["caller"%string := JStr s]> payload)) (hub_io hub))
            (hub_sockets hub) (hub_db hub)
  | None =>
      match payload !! "target"%string with
      | Some (JArr items) =>
          mkHub (io_to_rooms_emit items (signal_event k)
                   (DObj (<["caller"%string := JStr s]> payload)) (hub_io hub))
                (hub_sockets hub) (hub_db hub)
      | _ => hub
      end
  end.

(** The ["screen-sharing-started"] and ["screen-sharing-stopped"] listeners. *)
Definition on_screen_sharing_auth (k : ScreenSharing) (s : string)
    (data : gmap string json) (hub : Hub) : Hub :=
  match string_field data "roomId" with
  | Some roomId =>
      mkHub (socket_to_emit s roomId (screen_event k)
               (DObj (data ∪ {["userId"%string := JStr s]})) (hub_io hub))
            (hub_sockets hub) (hub_db hub)
  | None =>
      match data !! "roomId"%string with
      | Some (JArr items) =>
          mkHub (socket_to_rooms_emit s items (screen_event k)
                   (DObj (data ∪ {["userId"%string := JStr s]})) (hub_io hub))
                (hub_sockets hub) (hub_db hub)
      | _ => hub
      end
  end.

(** [socket.on("kick-user", async (data: { targetSocketId }) => ...)]. *)
Definition on_kick_user (s targetSocketId : string) (hub : Hub) : Hub :=
  match hub_sockets hub !! s with
  | None => hub
  | Some sock =>
      match meetingId sock with
      | None => hub
      | Some mid =>
          if decide (mid = EmptyString) then hub
          else
            match meetings (hub_db hub) !! mid with
            | Some meeting =>
                if decide (host_id meeting ≠ userId sock) then
                  emit_error s "Not authorized to kick users" hub
                else
                  let io1 := io_to_emit targetSocketId "kicked"
                               (message "You have been removed from the meeting")
                               (hub_io hub) in
                  let io2 := if decide (targetSocketId ∈ connected io1)
                             then leave targetSocketId mid io1 else io1 in
                  mkHub io2 (hub_sockets hub) (hub_db hub)
            | None => emit_error s "Not authorized to kick users" hub
            end
      end
  end.

(** [socket.on("disconnect", async () => ...)], run once socket.io has
    closed the socket; the socket object is gone afterwards. *)
Definition on_disconnect_auth (now : Z) (s : string) (hub : Hub) : Hub :=
  let io1 := close s (hub_io hub) in
  match hub_sockets hub !! s with
  | None => mkHub io1 (hub_sockets hub) (hub_db hub)
  | Some sock =>
      match meetingId sock with
      | Some mid =>
          if decide (mid = EmptyString) then
            mkHub io1 (delete s (hub_sockets hub)) (hub_db hub)
          else
            mkHub (socket_to_emit s mid "user-left" (DStr s) io1)
                  (delete s (hub_sockets hub))
                  (mkDb (meetings (hub_db hub))
                        (update_left (P := λ p, socket_id p = Some s) now
                           (meeting_participants (hub_db hub))))
      | None => mkHub io1 (delete s (hub_sockets hub)) (hub_db hub)
      end
  end.

End SocketHandlersAuth.

(** ** src/routes/meeting.ts: [/create], [/details] and the token check

    Every meeting route is mounted behind [authenticateToken].  The rate
    limiter ([middleware/rateLimiter]) is not part of the sources; the
    requests below are those it lets through. *)

Module MeetingRoutesAuth.
Import MeetingRoutes Accounts AuthRoutes AuthMiddleware.

(** [c.toUpperCase()] for the characters of a UUID (ASCII). *)
Definition upper (c : ascii) : ascii :=
  let n := nat_of_ascii c in
  if decide (97 ≤ n ∧ n ≤ 122)%nat then ascii_of_nat (n - 32) else c.

Fixpoint toUpperCase (s : string) : string :=
  match s with
  | EmptyString => EmptyString
  | String c s' => String (upper c) (toUpperCase s')
  end.

(** [meeting.id.split('-')[0].toUpperCase()]. *)
Definition meeting_code (meetingId : string) : string :=
  toUpperCase (default EmptyString (head (Js.split "-"%char meetingId))).

Record CreatedMeeting := mkCreatedMeeting {
  cm_id : string;
  cm_title : string;
  cm_joinUrl : string;
  cm_code : string;
  cm_maxParticipants : Z;
  cm_createdAt : Z
}.

Record MeetingDetails := mkMeetingDetails {
  md_id : string;
  md_title : string;
  md_hostName : string;
  md_isHost : bool;
  md_currentParticipants : Z;
  md_maxParticipants : Z;
  md_status : string;
  md_createdAt : Z
}.

Inductive MeetingBody :=
  | MeetingError (error : string)
  | Created (meeting : CreatedMeeting)
  | Details (meeting : MeetingDetails).

Record MeetingResponse := mkMeetingResponse {
  meeting_code_of : Z;
  meeting_body : MeetingBody
}.

(** [router.post('/create', ...)] after validation.  [meetingId] is the
    value of [uuidv4()]; [maxParticipants] is the value of
    [parseInt(process.env.MAX_PARTICIPANTS || '10', 10)], [None] for [NaN].
    The INSERT fails on a value that is no INTEGER and on a primary key
    that exists. *)
Definition post_create (lib : Lib) (now : Z) (userId : Z) (title meetingId : string)
    (maxParticipants : option Z) (db : Db) : Db * MeetingResponse :=
  match maxParticipants with
  | None => (db, mkMeetingResponse 500 (MeetingError "Failed to create meeting"))
  | Some n =>
      if decide (n < -2147483648 ∨ 2147483647 < n) then
        (db, mkMeetingResponse 500 (MeetingError "Failed to create meeting"))
      else
        match meetings db !! meetingId with
        | Some _ =>
            (db, mkMeetingResponse 500 (MeetingError "Failed to create meeting"))
        | None =>
            (mkDb (<[meetingId := mkMeeting userId title "active" n now None]>
                     (meetings db))
                  (meeting_participants db),
             mkMeetingResponse 201
               (Created
                  (mkCreatedMeeting meetingId title
                     (Js.template (FRONTEND_URL lib) +:+ "/meeting/" +:+ meetingId)
                     (meeting_code meetingId) n now)))
        end
  end.

(** [router.get('/details/:meetingId', ...)]: the meeting joined with its
    host in [users]; it only reads. *)
Definition get_details (userId : Z) (meetingId : string) (accounts : AccountDb)
    (db : Db) : MeetingResponse :=
  match meetings db !! meetingId with
  | None => mkMeetingResponse 404 (MeetingError "Meeting not found")
  | Some meeting =>
      match user_by_id accounts (host_id meeting) with
      | None => mkMeetingResponse 404 (MeetingError "Meeting not found")
      | Some host =>
          if decide (status meeting = "ended"%string) then
            mkMeetingResponse 400 (MeetingError "Meeting has ended")
          else
            mkMeetingResponse 200
              (Details
                 (mkMeetingDetails meetingId (MeetingRoutes.title meeting) (name host)
                    (bool_decide (host_id meeting = userId))
                    (current_participants db meetingId)
                    (max_participants meeting) (status meeting)
                    (created_at meeting)))
      end
  end.

(** [router.post(path, authenticateToken, handler)]: the handler runs with
    the [req.userId] the middleware has set, or not at all. *)
Definition behind_token {A} (lib : Lib) (now : Z) (authHeader : option string)
    (accounts : AccountDb) (handler : Z → Db → Db * A) (db : Db)
  : Db * (AuthResponse + A) :=
  match authenticateToken lib now authHeader accounts with
  | Refused r => (db, inl r)
  | Next userId _ => let '(db', r) := handler userId db in (db', inr r)
  end.

End MeetingRoutesAuth.

(** ** Example library *)

Module Scenario2.

(** A library that keeps passwords as they are and signs one token. *)
Definition toy_lib : Lib :=
  mkLib (λ _ pw, pw) (λ pw h, bool_decide (pw = h))
        (λ _ _ _ _, Some "jwt"%string)
        (λ _ _ t, if decide (t = "jwt"%string) then Some (1, "a@x.org"%string) else None)
        (Some "secret"%string) (Some "https://app"%string) None.

(** A name of 256 characters. *)
Definition long_name : string :=
  Nat.iter 256 (String "a"%char) EmptyString.

(** Users 1, 2 and 3 are connected on sockets "a", "b" and "c". *)
Definition three_sockets (db : MeetingRoutes.Db) : SocketHandlersAuth.Hub :=
  SocketHandlersAuth.on_connection_auth "c" 3 "c@x.org"
    (SocketHandlersAuth.on_connection_auth "b" 2 "b@x.org"
       (SocketHandlersAuth.on_connection_auth "a" 1 "a@x.org"
          (SocketHandlersAuth.empty_hub db))).

(** Meeting "m" of user 1 for [cap] participants; user 2 has asked to join
    over HTTP at time 1. *)
Definition db_with_guest (cap : Z) : MeetingRoutes.Db :=
  MeetingRoutes.mkDb {["m" := Scenario.meeting_of_1 cap]}
                     [MeetingRoutes.mkParticipant "m" 2 None 1 None].

End Scenario2.

(** * Properties *)

Import RoomManager SocketIO SocketHandlers MeetingRoutes Server Scenario.

(** ** Room manager *)

Section room_manager.
Implicit Types (rooms : gmap string (list string)) (l : list string).

Lemma filter_ne_snoc s l :
  filter (λ id, id ≠ s) (l ++ [s]) = filter (λ id, id ≠ s) l.
Proof.
  rewrite filter_app, filter_cons_False by (intros H; by apply H).
  by rewrite filter_nil, app_nil_r.
Qed.

Lemma not_elem_of_filter_ne s l : s ∉ filter (λ id, id ≠ s) l.
Proof. rewrite list_elem_of_filter. intros [H _]. by apply H. Qed.

Lemma addUserToRoom_Some roomId s rooms rooms' peers :
  addUserToRoom roomId s rooms = Some (rooms', peers) ↔
  inherited roomId = false ∧
  rooms' = <[roomId := default [] (rooms !! roomId) ++ [s]]> rooms ∧
  peers = filter (λ id, id ≠ s) (default [] (rooms !! roomId)).
Proof.
  unfold addUserToRoom. destruct (inherited roomId).
  - split; [done|]. by intros [? _].
  - rewrite filter_ne_snoc. split.
    + by intros [= <- <-].
    + by intros (_ & -> & ->).
Qed.

Lemma addUserToRoom_None roomId s rooms :
  addUserToRoom roomId s rooms = None ↔ inherited roomId = true.
Proof. unfold addUserToRoom. by destruct (inherited roomId). Qed.

Lemma lookup_removeUserFromRoom s rooms roomId :
  removeUserFromRoom s rooms !! roomId
  = filter (λ id, id ≠ s) <$> rooms !! roomId.
Proof. apply lookup_fmap. Qed.

Lemma dom_removeUserFromRoom s rooms :
  dom (removeUserFromRoom s rooms) = dom rooms.
Proof. apply dom_fmap_L. Qed.

Lemma dom_addUserToRoom roomId s rooms rooms' peers :
  addUserToRoom roomId s rooms = Some (rooms', peers) →
  dom rooms' = {[roomId]} ∪ dom rooms.
Proof.
  rewrite addUserToRoom_Some. intros (_ & -> & _). apply dom_insert_L.
Qed.

Lemma filter_notin_nil l : filter (λ id, id ∉ ([] : list string)) l = l.
Proof.
  induction l as [|x l IHl]; [done|].
  rewrite filter_cons. case_decide as Hx; [by rewrite IHl|].
  exfalso. by apply not_elem_of_nil in Hx.
Qed.

(** Filtering out every element of [ss] one after the other. *)
Lemma lookup_remove_all ss rooms roomId :
  foldl (λ rs s, removeUserFromRoom s rs) rooms ss !! roomId
  = filter (λ id, id ∉ ss) <$> rooms !! roomId.
Proof.
  revert rooms. induction ss as [|s ss IH]; intros rooms; simpl.
  - destruct (rooms !! roomId) as [l|]; simpl; [|done].
    by rewrite filter_notin_nil.
  - rewrite IH, lookup_removeUserFromRoom.
    destruct (rooms !! roomId) as [l|]; simpl; [|done]. f_equal.
    rewrite list_filter_filter. apply list_filter_iff.
    intros x. rewrite not_elem_of_cons. tauto.
Qed.

End room_manager.

(** ** The registry across inputs *)

Section registry.
Implicit Types (sys : System) (i : Input) (l : list string).

(** Only [join-room] and [disconnect] write to [rooms]. *)
Lemma handle_rooms i sys sys' r :
  handle i sys = Some (sys', r) →
  match i with
  | JoinRoom s roomId _ =>
      ∃ peers, addUserToRoom roomId s (rooms (srv sys))
               = Some (rooms (srv sys'), peers)
  | Disconnect s => rooms (srv sys') = removeUserFromRoom s (rooms (srv sys))
  | _ => rooms (srv sys') = rooms (srv sys)
  end.
Proof.
  destruct i; simpl; try (by intros [= <- _]).
  - unfold on_join_room.
    destruct (addUserToRoom roomId s (rooms (srv sys))) as [[rs peers]|]
      eqn:Hadd; simpl; [|done].
    intros [= <- _]. by exists peers.
  - unfold on_signal. destruct (string_field _ _); [by intros [= <- _]|].
    by destruct (_ !! _) as [[]|]; intros [= <- _].
  - unfold on_screen_sharing. destruct (string_field _ _); [by intros [= <- _]|].
    by destruct (_ !! _) as [[]|]; intros [= <- _].
  - destruct (post_join _ _ _ _). by intros [= <- _].
  - destruct (post_end _ _ _ _). by intros [= <- _].
  - destruct (post_kick _ _ _ _ _). by intros [= <- _].
Qed.

Lemma handle_dom_rooms i sys sys' r :
  handle i sys = Some (sys', r) →
  dom (rooms (srv sys)) ⊆ dom (rooms (srv sys')).
Proof.
  intros H. apply handle_rooms in H. destruct i; try (by rewrite H).
  - destruct H as [peers H]. apply dom_addUserToRoom in H. set_solver.
  - by rewrite H, dom_removeUserFromRoom.
Qed.

Lemma run_dom_rooms inputs sys sys' :
  run inputs sys = Some sys' →
  dom (rooms (srv sys)) ⊆ dom (rooms (srv sys')).
Proof.
  revert sys. induction inputs as [|i inputs IH]; intros sys; simpl.
  - by intros [= ->].
  - destruct (handle i sys) as [[sys1 r]|] eqn:Hi; simpl; [|done].
    intros Hrun. etrans; [by eapply handle_dom_rooms|by apply IH].
Qed.

(** Disconnects never fail, and filter the arrays one socket at a time. *)
Lemma run_disconnects ss sys :
  ∃ sys', run (Disconnect <$> ss) sys = Some sys' ∧
          rooms (srv sys')
          = foldl (λ rs s, removeUserFromRoom s rs) (rooms (srv sys)) ss.
Proof.
  revert sys. induction ss as [|s ss IH]; intros sys; simpl.
  - by exists sys.
  - apply IH.
Qed.

Lemma filter_none_left l :
  filter (λ id, id ∉ remove_dups l) l = [].
Proof.
  assert (∀ k, (∀ x, x ∈ k → x ∈ remove_dups l) →
               filter (λ id, id ∉ remove_dups l) k = []) as H.
  { induction k as [|x k IHk]; intros Hk; [done|].
    rewrite filter_cons. case_decide as Hx.
    - exfalso. apply Hx, Hk. by left.
    - apply IHk. intros y Hy. apply Hk. by right. }
  apply H. intros x Hx. by apply elem_of_remove_dups.
Qed.

End registry.

(** C4.  After a disconnect has been handled, the id of the socket is in no
    array of [rooms] (however often it had been pushed) and in no room of
    the socket.io adapter. *)
Theorem disconnect_purges_registry sys s sys' r :
  handle (Disconnect s) sys = Some (sys', r) →
  ∀ roomId,
    (s ∉ default [] (rooms (srv sys') !! roomId)) ∧
    (s ∉ members (io (srv sys')) roomId).
Proof.
  intros H roomId. pose proof (handle_rooms _ _ _ _ H) as Hrooms.
  simpl in Hrooms. split.
  - rewrite Hrooms, lookup_removeUserFromRoom.
    destruct (rooms (srv sys) !! roomId) as [l|]; simpl.
    + apply not_elem_of_filter_ne.
    + apply not_elem_of_nil.
  - simpl in H. injection H as <- _. unfold members. simpl.
    rewrite lookup_fmap.
    destruct (adapter (io (srv sys)) !! roomId); simpl; set_solver.
Qed.

(** A socket that joined the same room twice, then left. *)
Lemma disconnect_purges_registry_witness :
  ∃ sys sys',
    run [Connection "a"; JoinRoom "a" "m" "u"; JoinRoom "a" "m" "u"] initial
      = Some sys ∧
    rooms (srv sys) !! "m"%string = Some ["a"; "a"]%string ∧
    handle (Disconnect "a") sys = Some (sys', None) ∧
    rooms (srv sys') !! "m"%string = Some [] ∧
    "a"%string ∉ default [] (rooms (srv sys') !! "m"%string).
Proof.
  eexists _, _. split; [vm_compute; reflexivity|].
  split; [vm_compute; reflexivity|].
  split; [reflexivity|].
  split; [vm_compute; reflexivity|].
  eapply (disconnect_purges_registry _ "a"). reflexivity.
Defined.

(** C10.  A room id written to [rooms] by a [join-room] stays a key of
    [rooms] whatever the process handles afterwards; once every socket in
    its array has disconnected the array is empty, and [getRooms] still
    returns it under that key. *)
Theorem room_entry_is_permanent sys s roomId userId sys1 r inputs sys2 :
  handle (JoinRoom s roomId userId) sys = Some (sys1, r) →
  run inputs sys1 = Some sys2 →
  ∃ l, getRooms (rooms (srv sys2)) !! roomId = Some l ∧
       ∃ sys3, run (Disconnect <$> remove_dups l) sys2 = Some sys3 ∧
               getRooms (rooms (srv sys3)) !! roomId = Some [].
Proof.
  intros Hjoin Hrun. unfold getRooms.
  assert (roomId ∈ dom (rooms (srv sys2))) as Hdom.
  { apply (run_dom_rooms _ _ _ Hrun).
    destruct (handle_rooms _ _ _ _ Hjoin) as [peers Hadd].
    rewrite (dom_addUserToRoom _ _ _ _ _ Hadd). set_solver. }
  apply elem_of_dom in Hdom as [l Hl]. exists l. split; [done|].
  destruct (run_disconnects (remove_dups l) sys2) as (sys3 & Hrun3 & Hrooms3).
  exists sys3. split; [done|].
  by rewrite Hrooms3, lookup_remove_all, Hl; simpl; rewrite filter_none_left.
Qed.

(** Two sockets join room "m", exchange an offer, and both disconnect. *)
Lemma room_entry_is_permanent_witness :
  ∃ sys1 sys2 l,
    handle (JoinRoom "a" "m" "u") (mkSystem empty_db (on_connection "a" empty_srv))
      = Some (sys1, None) ∧
    run [Connection "b"; JoinRoom "b" "m" "v";
         Signalling Offer "a" {["target" := JStr "b"]}; Disconnect "a"] sys1
      = Some sys2 ∧
    getRooms (rooms (srv sys2)) !! "m"%string = Some l ∧
    ∃ sys3, run (Disconnect <$> remove_dups l) sys2 = Some sys3 ∧
            getRooms (rooms (srv sys3)) !! "m"%string = Some [].
Proof.
  eexists _, _.
  destruct (room_entry_is_permanent
              (mkSystem empty_db (on_connection "a" empty_srv))
              "a" "m" "u" _ None
              [Connection "b"; JoinRoom "b" "m" "v";
               Signalling Offer "a" {["target" := JStr "b"]}; Disconnect "a"]
              _ eq_refl eq_refl) as (l & Hl & H3).
  exists l. split; [reflexivity|]. split; [reflexivity|]. split; assumption.
Defined.

(** ** What a socket receives *)

Section wire.
Implicit Types (io : Io) (s : string) (d : EventData).

Lemma inbox_send s to ev d io :
  inbox s (send to ev d io)
  = inbox s io ++
    filter (λ p, recipient p = s)
           ((λ r, mkPacket r ev d) <$> filter (λ r, r ∈ connected io) to).
Proof. unfold inbox, send. simpl. apply filter_app. Qed.

Lemma packets_for_other s (to : list string) ev d :
  s ∉ to →
  filter (λ p, recipient p = s) ((λ r, mkPacket r ev d) <$> to) = [].
Proof.
  induction to as [|x to IH]; [done|].
  rewrite not_elem_of_cons. intros [Hne Hto]. simpl.
  rewrite filter_cons_False by (simpl; congruence). by apply IH.
Qed.

Lemma inbox_send_other s to ev d io :
  s ∉ to → inbox s (send to ev d io) = inbox s io.
Proof.
  intros Hs. rewrite inbox_send, packets_for_other, app_nil_r; [done|].
  rewrite list_elem_of_filter. tauto.
Qed.

Lemma inbox_socket_emit s ev d io :
  s ∈ connected io →
  inbox s (socket_emit s ev d io) = inbox s io ++ [mkPacket s ev d].
Proof.
  intros Hs. unfold socket_emit. rewrite inbox_send.
  rewrite filter_cons_True, filter_nil by done. simpl.
  by rewrite filter_cons_True, filter_nil by done.
Qed.

Lemma inbox_socket_to_emit s room ev d io :
  inbox s (socket_to_emit s room ev d io) = inbox s io.
Proof.
  apply inbox_send_other. rewrite elem_of_elements. unfold excepted. set_solver.
Qed.

Lemma join_join s room io : join s room (join s room io) = join s room io.
Proof.
  unfold join, members. simpl. f_equal.
  rewrite lookup_insert_eq, insert_insert_eq. simpl. f_equal. set_solver.
Qed.

End wire.

(** [join-room] as seen by the joining socket: one ["all-users"] packet with
    the array returned by [addUserToRoom]. *)
Lemma on_join_room_Some s roomId userId st st' :
  s ∈ connected (io st) →
  on_join_room s roomId userId st = Some st' →
  let l := default [] (rooms st !! roomId) in
  rooms st' = <[roomId := l ++ [s]]> (rooms st) ∧
  adapter (io st') = adapter (join s roomId (io st)) ∧
  connected (io st') = connected (io st) ∧
  inbox s (io st')
  = inbox s (io st) ++ [mkPacket s "all-users" (DList (filter (λ id, id ≠ s) l))].
Proof.
  intros Hs. unfold on_join_room.
  destruct (addUserToRoom roomId s (rooms st)) as [[rs peers]|] eqn:Hadd;
    simpl; [|done].
  apply addUserToRoom_Some in Hadd as (_ & -> & ->). intros [= <-]. simpl.
  repeat split; try done.
  by rewrite inbox_socket_to_emit, inbox_socket_emit.
Qed.

Lemma on_join_room_is_Some s roomId userId st :
  is_Some (on_join_room s roomId userId st) ↔ inherited roomId = false.
Proof.
  unfold on_join_room, addUserToRoom. destruct (inherited roomId); simpl.
  - split; [by intros [? ?]|done].
  - split; [done|]. by eexists.
Qed.

(** Occurrences of a socket id in an array of [rooms] only go away when that
    socket disconnects. *)
Lemma filter_eq_filter_ne s s0 (l : list string) :
  s ≠ s0 →
  filter (λ id, id = s) (filter (λ id, id ≠ s0) l) = filter (λ id, id = s) l.
Proof.
  intros Hne. rewrite list_filter_filter. apply list_filter_iff.
  intros x. split; [tauto|]. intros ->. done.
Qed.

Lemma handle_keeps_occurrences i sys sys' r s room :
  handle i sys = Some (sys', r) →
  i ≠ Disconnect s →
  (length (filter (λ id, id = s) (default [] (rooms (srv sys) !! room)))
   ≤ length (filter (λ id, id = s) (default [] (rooms (srv sys') !! room))))%nat.
Proof.
  intros H Hi. apply handle_rooms in H.
  destruct i as [| s0 room0 ? | | | s0 | | |]; try (by rewrite H).
  - destruct H as [peers H]. apply addUserToRoom_Some in H as (_ & -> & _).
    rewrite lookup_insert. case_decide; [subst room0|done]. simpl.
    rewrite filter_app, length_app. lia.
  - rewrite H, lookup_removeUserFromRoom.
    destruct (rooms (srv sys) !! room) as [l|]; simpl; [|done].
    rewrite filter_eq_filter_ne; [done|]. by intros ->.
Qed.

Lemma run_keeps_occurrences inputs sys sys' s room :
  Forall (λ i, i ≠ Disconnect s) inputs →
  run inputs sys = Some sys' →
  (length (filter (λ id, id = s) (default [] (rooms (srv sys) !! room)))
   ≤ length (filter (λ id, id = s) (default [] (rooms (srv sys') !! room))))%nat.
Proof.
  intros Hall. revert sys. induction Hall as [|i inputs Hi _ IH]; intros sys; simpl.
  - by intros [= ->].
  - destruct (handle i sys) as [[sys1 r]|] eqn:Hh; simpl; [|done].
    intros Hrun. etrans; [by eapply handle_keeps_occurrences|by apply IH].
Qed.

(** C5 (as the code has it).  A second [join-room] by the same socket for the
    same room is accepted, never rejected, and pushes the id of the socket
    onto the array of the room once more.  Right after the first one, the
    socket is sent the same peer list again and the socket.io room is
    unchanged; after any inputs that do not disconnect the socket, its id is
    in the array at least twice. *)
Theorem second_join_appends_duplicate sys s roomId u1 u2 sys1 r1 :
  enabled (JoinRoom s roomId u1) sys →
  handle (JoinRoom s roomId u1) sys = Some (sys1, r1) →
  (∃ sys2 l peers,
     handle (JoinRoom s roomId u2) sys1 = Some (sys2, None) ∧
     inbox s (io (srv sys1))
       = inbox s (io (srv sys)) ++ [mkPacket s "all-users" (DList peers)] ∧
     inbox s (io (srv sys2))
       = inbox s (io (srv sys1)) ++ [mkPacket s "all-users" (DList peers)] ∧
     rooms (srv sys1) !! roomId = Some (l ++ [s]) ∧
     rooms (srv sys2) !! roomId = Some (l ++ [s; s]) ∧
     adapter (io (srv sys2)) = adapter (io (srv sys1))) ∧
  (∀ inputs sys1',
     Forall (λ i, i ≠ Disconnect s) inputs →
     run inputs sys1 = Some sys1' →
     ∃ sys2 l,
       handle (JoinRoom s roomId u2) sys1' = Some (sys2, None) ∧
       rooms (srv sys2) !! roomId = Some l ∧
       (2 ≤ length (filter (λ id, id = s) l))%nat).
Proof.
  intros Hs H1. pose proof H1 as H1'. simpl in Hs, H1.
  destruct (on_join_room s roomId u1 (srv sys)) as [st1|] eqn:Hj1;
    simpl in H1; [|done].
  injection H1 as <- <-.
  assert (inherited roomId = false) as Hin
    by (apply (on_join_room_is_Some s roomId u1 (srv sys)); by eexists).
  apply on_join_room_Some in Hj1 as (Hr1 & Ha1 & Hc1 & Hi1); [|done].
  set (l := default [] (rooms (srv sys) !! roomId)) in *.
  assert (rooms st1 !! roomId = Some (l ++ [s])) as Hl1
    by (rewrite Hr1; apply lookup_insert_eq).
  split.
  - simpl.
    destruct (proj2 (on_join_room_is_Some s roomId u2 st1) Hin) as [st2 Hj2].
    rewrite Hj2. simpl.
    apply on_join_room_Some in Hj2 as (Hr2 & Ha2 & Hc2 & Hi2); [|by rewrite Hc1].
    rewrite Hl1 in Hr2, Hi2. simpl in Hr2, Hi2. rewrite filter_ne_snoc in Hi2.
    exists (mkSystem (directory sys) st2), l, (filter (λ id, id ≠ s) l).
    simpl. split; [done|]. split; [done|]. split; [done|]. split; [done|]. split.
    + rewrite Hr2, lookup_insert_eq. by rewrite <- app_assoc.
    + rewrite Ha2. destruct (io st1) as [c1 a1 w1].
      simpl in *. subst a1. unfold join, members. simpl.
      rewrite lookup_insert_eq, insert_insert_eq. simpl. f_equal. set_solver.
  - intros inputs sys1' Hall Hrun.
    pose proof (run_keeps_occurrences _ _ _ s roomId Hall Hrun) as Hocc.
    simpl in Hocc. rewrite Hl1 in Hocc. simpl in Hocc.
    rewrite filter_app, length_app, filter_cons_True in Hocc by done.
    simpl in Hocc. simpl. unfold on_join_room, addUserToRoom. rewrite Hin.
    simpl. eexists _, _. split; [done|]. simpl.
    split; [apply lookup_insert_eq|].
    rewrite filter_app, length_app, filter_cons_True by done. simpl. lia.
Qed.

(** Socket "a" joins room "m", where "b" already is; "b" sends it an offer
    and a third socket comes and goes; "a" joins again. *)
Lemma second_join_appends_duplicate_witness :
  let sys :=
    mkSystem empty_db
      (mkSrv (mkIo {["a"; "b"]} {["a" := {["a"]}; "b" := {["b"]}; "m" := {["b"]}]} [])
             {["m" := ["b"]]}) in
  let inputs :=
    [Signalling Offer "b" {["target" := JStr "a"]}; Connection "c";
     JoinRoom "c" "m" "w"; Disconnect "c"] in
  ∃ sys1 sys1',
    handle (JoinRoom "a" "m" "u") sys = Some (sys1, None) ∧
    run inputs sys1 = Some sys1' ∧
    ∃ sys2 l,
      handle (JoinRoom "a" "m" "v") sys1' = Some (sys2, None) ∧
      rooms (srv sys2) !! "m"%string = Some l ∧
      (2 ≤ length (filter (λ id, id = "a"%string) l))%nat.
Proof.
  intros sys inputs. eexists _, _. split; [reflexivity|]. split; [reflexivity|].
  eapply (proj2 (second_join_appends_duplicate sys "a" "m" "u" "v" _ None
                   ltac:(vm_compute; reflexivity) eq_refl) inputs).
  - repeat constructor; discriminate.
  - reflexivity.
Defined.

(** C5 (as stated) fails: the second [join-room] is not rejected, and it
    does change the array of the room. *)
Lemma second_join_neither_noop_nor_rejected :
  ∃ sys1,
    handle (JoinRoom "a" "m" "u") (mkSystem empty_db (on_connection "a" empty_srv))
      = Some (sys1, None) ∧
    ¬ (handle (JoinRoom "a" "m" "u") sys1 = None ∨
       ∃ sys2 r, handle (JoinRoom "a" "m" "u") sys1 = Some (sys2, r) ∧
                 rooms (srv sys2) !! "m"%string = rooms (srv sys1) !! "m"%string).
Proof.
  eexists. split; [reflexivity|].
  intros [H | (sys2 & r & H & Heq)].
  - vm_compute in H. discriminate.
  - injection H as <- _. vm_compute in Heq. discriminate.
Qed.

(** ** The meeting routes *)

Section meeting_routes.
Implicit Types (db : Db) (rows : list Participant) (p : Participant).

Lemma record_of_None db meetingId userId :
  record_of db meetingId userId = None ↔
  ¬ Exists (is_record meetingId userId) (meeting_participants db).
Proof.
  unfold record_of. rewrite Exists_exists. split.
  - intros Hhd (p & Hp & Hrec).
    assert (p ∈ filter (is_record meetingId userId) (meeting_participants db))
      as Hin by (by apply list_elem_of_filter).
    destruct (filter _ _); [by apply not_elem_of_nil in Hin|done].
  - intros Hno.
    destruct (filter _ _) as [|p ?] eqn:Hf; [done|]. exfalso. apply Hno.
    assert (p ∈ filter (is_record meetingId userId) (meeting_participants db))
      as Hin by (rewrite Hf; by left).
    apply list_elem_of_filter in Hin. exists p. tauto.
Qed.

Lemma record_of_Some db meetingId userId p :
  record_of db meetingId userId = Some p →
  p ∈ meeting_participants db ∧ is_record meetingId userId p.
Proof.
  unfold record_of. intros Hhd.
  assert (p ∈ filter (is_record meetingId userId) (meeting_participants db))
    as Hin by (destruct (filter _ _); simplify_eq/=; by left).
  apply list_elem_of_filter in Hin. tauto.
Qed.

(** [ON CONFLICT DO NOTHING]: an existing row is kept as it is. *)
Lemma insert_participant_conflict now meetingId userId db p :
  record_of db meetingId userId = Some p →
  insert_participant now meetingId userId (meeting_participants db)
  = meeting_participants db.
Proof.
  intros Hp. unfold insert_participant. case_decide as Hex; [done|].
  apply record_of_None in Hex. congruence.
Qed.

Lemma insert_participant_fresh now meetingId userId db :
  record_of db meetingId userId = None →
  insert_participant now meetingId userId (meeting_participants db)
  = meeting_participants db ++ [mkParticipant meetingId userId None now None].
Proof.
  intros Hp. unfold insert_participant. case_decide as Hex; [|done].
  by apply record_of_None in Hp.
Qed.

Lemma record_of_snoc_fresh rows meetingId userId p ms :
  ¬ Exists (is_record meetingId userId) rows →
  is_record meetingId userId p →
  record_of (mkDb ms (rows ++ [p])) meetingId userId = Some p.
Proof.
  intros Hno Hp. unfold record_of. simpl. rewrite filter_app.
  assert (filter (is_record meetingId userId) rows = []) as ->.
  { induction rows as [|q rows IH]; [done|].
    rewrite filter_cons. case_decide as Hq.
    - exfalso. apply Hno. by left.
    - apply IH. intros Hex. apply Hno. by right. }
  by rewrite filter_cons_True.
Qed.

(** The live count after the insert of [/join]. *)
Lemma live_count_insert now meetingId userId rows :
  (length (filter (live_in meetingId)
                  (insert_participant now meetingId userId rows))
   ≤ S (length (filter (live_in meetingId) rows)))%nat.
Proof.
  unfold insert_participant. case_decide; [lia|].
  rewrite filter_app, length_app, filter_cons_True by done. simpl. lia.
Qed.

(** The four ways [/join] can answer. *)
Lemma post_join_cases now userId meetingId db :
  match meetings db !! meetingId with
  | None =>
      post_join now userId meetingId db
      = (db, mkResponse 404 (ErrorBody "Meeting not found"))
  | Some m =>
      if decide (status m = "ended"%string) then
        post_join now userId meetingId db
        = (db, mkResponse 400 (ErrorBody "Meeting has ended"))
      else if decide (current_participants db meetingId >= max_participants m) then
        post_join now userId meetingId db
        = (db, mkResponse 400 (ErrorBody "Meeting is full"))
      else
        post_join now userId meetingId db
        = (mkDb (meetings db)
             (insert_participant now meetingId userId (meeting_participants db)),
           mkResponse 200
             (JoinBody "Authorized to join meeting" meetingId (title m)
                       (bool_decide (host_id m = userId))))
  end.
Proof.
  unfold post_join. destruct (meetings db !! meetingId) as [m|]; [|done].
  destruct (decide (status m = "ended"%string)); [done|].
  by destruct (decide (current_participants db meetingId >= max_participants m)).
Qed.

Lemma post_join_200 now userId meetingId db db' resp :
  post_join now userId meetingId db = (db', resp) → code resp = 200 →
  ∃ m, meetings db !! meetingId = Some m ∧
       status m ≠ "ended"%string ∧
       current_participants db meetingId < max_participants m ∧
       db' = mkDb (meetings db)
               (insert_participant now meetingId userId (meeting_participants db)) ∧
       resp = mkResponse 200
                (JoinBody "Authorized to join meeting" meetingId (title m)
                          (bool_decide (host_id m = userId))).
Proof.
  pose proof (post_join_cases now userId meetingId db) as H.
  destruct (meetings db !! meetingId) as [m|].
  - destruct (decide (status m = "ended"%string));
      [rewrite H; by intros [= <- <-]|].
    destruct (decide (current_participants db meetingId >= max_participants m));
      [rewrite H; by intros [= <- <-]|].
    rewrite H. intros [= <- <-] _. exists m. repeat split; try done. lia.
  - rewrite H. by intros [= <- <-].
Qed.

End meeting_routes.

(** C1 (as the code has it).  A [/join] request answered with 200 leaves at
    most [max_participants] live participant rows for the meeting, and a
    request for a meeting (not ended) that already has that many is answered
    with 400 "Meeting is full" and changes nothing.  The [join-room] event of
    a socket does not look at the directory: it appends the socket to the
    array of the room whatever the capacity. *)
Theorem capacity_checked_by_http_join_only sys now userId meetingId sys' resp :
  handle (PostJoin now userId meetingId) sys = Some (sys', Some resp) →
  (code resp = 200 →
   ∃ m, meetings (directory sys') !! meetingId = Some m ∧
        current_participants (directory sys') meetingId <= max_participants m) ∧
  (∀ m, meetings (directory sys) !! meetingId = Some m →
        status m ≠ "ended"%string →
        current_participants (directory sys) meetingId >= max_participants m →
        resp = mkResponse 400 (ErrorBody "Meeting is full") ∧ sys' = sys) ∧
  (∀ s roomId u, inherited roomId = false →
     ∃ sys2, handle (JoinRoom s roomId u) sys = Some (sys2, None) ∧
             directory sys2 = directory sys ∧
             rooms (srv sys2) !! roomId
             = Some (default [] (rooms (srv sys) !! roomId) ++ [s])).
Proof.
  simpl. destruct (post_join now userId meetingId (directory sys))
    as [db' resp'] eqn:Hj.
  intros [= <- <-]. split; [|split].
  - intros Hcode.
    destruct (post_join_200 _ _ _ _ _ _ Hj Hcode) as (m & Hm & _ & Hlt & -> & _).
    exists m. split; [done|]. unfold current_participants in *. simpl.
    pose proof (live_count_insert now meetingId userId
                  (meeting_participants (directory sys))). lia.
  - intros m Hm Hst Hfull.
    pose proof (post_join_cases now userId meetingId (directory sys)) as H.
    rewrite Hm in H. destruct (decide (status m = "ended"%string)); [done|].
    destruct (decide (_ >= _)); [|done].
    rewrite H in Hj. injection Hj as <- <-. by destruct sys.
  - intros s roomId u Hin. unfold on_join_room, addUserToRoom. rewrite Hin.
    simpl. eexists. split; [done|]. simpl. split; [done|].
    apply lookup_insert_eq.
Qed.

(** A full meeting: the HTTP join is refused, the socket join is not. *)
Lemma capacity_checked_by_http_join_only_witness :
  ∃ sys,
    run [PostJoin 0 1 "m"; Connection "a"] (started 1) = Some sys ∧
    handle (PostJoin 5 2 "m") sys
      = Some (sys, Some (mkResponse 400 (ErrorBody "Meeting is full"))) ∧
    ∃ sys2, handle (JoinRoom "a" "m" "2") sys = Some (sys2, None) ∧
            directory sys2 = directory sys ∧
            rooms (srv sys2) !! "m"%string
            = Some (default [] (rooms (srv sys) !! "m"%string) ++ ["a"%string]).
Proof.
  eexists. split; [reflexivity|]. split; [reflexivity|].
  eapply (capacity_checked_by_http_join_only _ 5 2 "m"); reflexivity.
Defined.

(** C1 (as stated) fails: meeting "m" takes one participant and has one
    live participant row; two sockets still join its room. *)
Lemma socket_join_ignores_capacity :
  ∃ sys sys2,
    run [PostJoin 0 1 "m"; Connection "a"; Connection "b"] (started 1) = Some sys ∧
    current_participants (directory sys) "m" >= max_participants (meeting_of_1 1) ∧
    run [JoinRoom "a" "m" "1"; JoinRoom "b" "m" "2"] sys = Some sys2 ∧
    directory sys2 = directory sys ∧
    rooms (srv sys2) !! "m"%string = Some ["a"; "b"]%string ∧
    ¬ (Z.of_nat (length ["a"; "b"]%string) <= max_participants (meeting_of_1 1)).
Proof.
  eexists _, _. split; [reflexivity|]. split; [vm_compute; discriminate|].
  split; [reflexivity|]. split; [reflexivity|]. split; [reflexivity|].
  vm_compute. intros H. by apply H.
Qed.

(** X11.  [POST /join] is the step that entitles a user to a meeting, and it
    asks for nothing but a token: every authenticated user who asks to join
    an existing meeting that has not ended and is not full is answered 200,
    host or not, with or without an earlier participant row, and has a
    participant row afterwards. *)
Theorem join_accepts_any_user db now userId meetingId m :
  meetings db !! meetingId = Some m →
  status m ≠ "ended"%string →
  current_participants db meetingId < max_participants m →
  ∃ db',
    post_join now userId meetingId db
    = (db', mkResponse 200
              (JoinBody "Authorized to join meeting" meetingId (title m)
                        (bool_decide (host_id m = userId)))) ∧
    is_Some (record_of db' meetingId userId).
Proof.
  intros Hm Hst Hlt.
  pose proof (post_join_cases now userId meetingId db) as H. rewrite Hm in H.
  destruct (decide (status m = "ended"%string)); [done|].
  destruct (decide (_ >= _)); [lia|].
  eexists. split; [exact H|].
  destruct (record_of db meetingId userId) as [p|] eqn:Hp.
  - rewrite (insert_participant_conflict _ _ _ _ _ Hp).
    exists p. by destruct db.
  - rewrite (insert_participant_fresh _ _ _ _ Hp). eexists.
    apply record_of_snoc_fresh; [by apply record_of_None|done].
Qed.

Lemma join_accepts_any_user_witness :
  ∃ db',
    post_join 7 2 "m" (directory (started 10))
    = (db', mkResponse 200
              (JoinBody "Authorized to join meeting" "m" "standup" false)) ∧
    is_Some (record_of db' "m" 2).
Proof.
  apply (join_accepts_any_user (directory (started 10)) 7 2 "m" (meeting_of_1 10)).
  - reflexivity.
  - discriminate.
  - reflexivity.
Defined.

(** X30.  A [POST /join] answered with 200 adds a row for (meeting, user),
    live and without socket id, when there was none; a row that exists is
    kept as it is, with the [left_at] and [socket_id] it had: the socket id
    is attached, and [left_at] cleared, by [join-room] when the socket
    connects. *)
Theorem join_inserts_or_keeps db now userId meetingId db' resp :
  post_join now userId meetingId db = (db', resp) →
  code resp = 200 →
  match record_of db meetingId userId with
  | None =>
      meeting_participants db'
      = meeting_participants db ++ [mkParticipant meetingId userId None now None] ∧
      record_of db' meetingId userId
      = Some (mkParticipant meetingId userId None now None)
  | Some p => db' = db ∧ record_of db' meetingId userId = Some p
  end.
Proof.
  intros Hj Hcode.
  destruct (post_join_200 _ _ _ _ _ _ Hj Hcode) as (m & _ & _ & _ & -> & _).
  destruct (record_of db meetingId userId) as [p|] eqn:Hp.
  - rewrite (insert_participant_conflict _ _ _ _ _ Hp). by destruct db.
  - rewrite (insert_participant_fresh _ _ _ _ Hp). split; [done|].
    apply record_of_snoc_fresh; [by apply record_of_None|done].
Qed.

(** User 2 joined "m" and was kicked at time 5, and asks to join again. *)
Lemma join_inserts_or_keeps_witness :
  post_join 9 2 "m" db_after_kick
  = (db_after_kick,
     mkResponse 200 (JoinBody "Authorized to join meeting" "m" "standup" false)) ∧
  (db_after_kick = db_after_kick ∧
   record_of db_after_kick "m" 2 = Some (mkParticipant "m" 2 None 1 (Some 5))).
Proof.
  split; [reflexivity|].
  exact (join_inserts_or_keeps db_after_kick 9 2 "m" db_after_kick
           (mkResponse 200
              (JoinBody "Authorized to join meeting" "m" "standup" false))
           eq_refl eq_refl).
Defined.

(** ** Ending a meeting and kicking a participant *)

Section host_routes.
Implicit Types (db : Db) (rows : list Participant) (p : Participant).

Lemma elem_of_update_left `{∀ p, Decision (P p)} now rows q :
  q ∈ update_left (P := P) now rows →
  ∃ p, p ∈ rows ∧ q = if decide (P p) then set_left now p else p.
Proof.
  unfold update_left. rewrite list_elem_of_fmap.
  intros (p & -> & Hp). by exists p.
Qed.

Lemma live_count_update_left now meetingId rows :
  filter (live_in meetingId) (update_left (P := live_in meetingId) now rows) = [].
Proof.
  induction rows as [|p rows IH]; [done|]. unfold update_left in *. simpl.
  rewrite filter_cons_False; [done|].
  case_decide as Hp; unfold live_in in *; simpl; [|done].
  intros [_ ?]. discriminate.
Qed.

Lemma post_end_cases now userId meetingId db :
  match meetings db !! meetingId with
  | None =>
      post_end now userId meetingId db
      = (db, mkResponse 404 (ErrorBody "Meeting not found"))
  | Some m =>
      if decide (host_id m = userId) then
        post_end now userId meetingId db
        = (mkDb (<[meetingId := set_ended now m]> (meetings db))
             (update_left (P := live_in meetingId) now (meeting_participants db)),
           mkResponse 200 (MessageBody "Meeting ended successfully"))
      else
        post_end now userId meetingId db
        = (db, mkResponse 403 (ErrorBody "Only host can end the meeting"))
  end.
Proof.
  unfold post_end. destruct (meetings db !! meetingId) as [m|]; [|done].
  destruct (decide (host_id m = userId)), (decide (host_id m ≠ userId)); done.
Qed.

Lemma post_kick_cases now requester meetingId userId db :
  match meetings db !! meetingId with
  | None =>
      post_kick now requester meetingId userId db
      = (db, mkResponse 404 (ErrorBody "Meeting not found"))
  | Some m =>
      if decide (host_id m = requester) then
        match userId with
        | Some u =>
            if decide (-2147483648 ≤ u ≤ 2147483647) then
              post_kick now requester meetingId userId db
              = (mkDb (meetings db)
                   (update_left (P := is_record meetingId u) now
                                (meeting_participants db)),
                 mkResponse 200 (MessageBody "Participant kicked successfully"))
            else
              post_kick now requester meetingId userId db
              = (db, mkResponse 500 (ErrorBody "Failed to kick participant"))
        | None =>
            post_kick now requester meetingId userId db
            = (db, mkResponse 500 (ErrorBody "Failed to kick participant"))
        end
      else
        post_kick now requester meetingId userId db
        = (db, mkResponse 403 (ErrorBody "Only host can kick participants"))
  end.
Proof.
  unfold post_kick. destruct (meetings db !! meetingId) as [m|]; [|done].
  destruct (decide (host_id m = requester)), (decide (host_id m ≠ requester));
    try done.
  destruct userId as [u|]; [|done]. repeat case_decide; (done || lia).
Qed.

End host_routes.

(** C7 (as the code has it).  When the host ends a meeting the directory row
    of the meeting gets status "ended", and no participant row of the
    meeting is live afterwards: those that were are stamped with the time of
    the request, the others are as before.  Nothing is removed from [rooms]
    or from the socket.io rooms, and nothing is sent to any socket. *)
Theorem end_meeting_updates_directory_only sys now userId meetingId m :
  meetings (directory sys) !! meetingId = Some m →
  host_id m = userId →
  ∃ db',
    handle (PostEnd now userId meetingId) sys
    = Some (mkSystem db' (srv sys),
            Some (mkResponse 200 (MessageBody "Meeting ended successfully"))) ∧
    meetings db' !! meetingId = Some (set_ended now m) ∧
    status (set_ended now m) = "ended"%string ∧
    meeting_participants db'
    = (λ p, if decide (live_in meetingId p) then set_left now p else p)
        <$> meeting_participants (directory sys) ∧
    current_participants db' meetingId = 0.
Proof.
  intros Hm Hhost. simpl.
  pose proof (post_end_cases now userId meetingId (directory sys)) as H.
  rewrite Hm in H. destruct (decide (host_id m = userId)); [|done].
  rewrite H. eexists. split; [done|]. simpl.
  split; [apply lookup_insert_eq|]. split; [done|]. split; [done|].
  unfold current_participants. simpl. by rewrite live_count_update_left.
Qed.

Lemma end_meeting_updates_directory_only_witness :
  ∃ sys db',
    run in_meeting (started 10) = Some sys ∧
    handle (PostEnd 9 1 "m") sys
    = Some (mkSystem db' (srv sys),
            Some (mkResponse 200 (MessageBody "Meeting ended successfully"))) ∧
    meetings db' !! "m"%string = Some (set_ended 9 (meeting_of_1 10)) ∧
    status (set_ended 9 (meeting_of_1 10)) = "ended"%string ∧
    meeting_participants db'
    = (λ p, if decide (live_in "m" p) then set_left 9 p else p)
        <$> meeting_participants (directory sys) ∧
    current_participants db' "m" = 0.
Proof.
  eexists. 
  destruct (end_meeting_updates_directory_only
              (default (started 10) (run in_meeting (started 10)))
              9 1 "m" (meeting_of_1 10) eq_refl eq_refl) as [db' H].
  exists db'. split; [reflexivity|]. exact H.
Defined.

(** C7 (as stated) fails: after the host has ended "m", socket "a" is still
    in the array of "m" and in the socket.io room, and has been sent
    nothing. *)
Lemma end_meeting_leaves_registry :
  ∃ sys sys',
    run in_meeting (started 10) = Some sys ∧
    handle (PostEnd 9 1 "m") sys
    = Some (sys', Some (mkResponse 200 (MessageBody "Meeting ended successfully"))) ∧
    status <$> meetings (directory sys') !! "m"%string = Some "ended"%string ∧
    rooms (srv sys') !! "m"%string = Some ["a"%string] ∧
    "a"%string ∈ members (io (srv sys')) "m" ∧
    wire (io (srv sys')) = wire (io (srv sys)).
Proof.
  eexists _, _. split; [reflexivity|]. split; [reflexivity|].
  split; [reflexivity|]. split; [reflexivity|].
  split; [|reflexivity]. vm_compute. reflexivity.
Qed.

(** C8.  A kick is carried out only for the host recorded in the directory
    when the request is handled; a request by anyone else for that meeting
    is answered with 403 and changes neither the directory nor [rooms] nor
    the socket.io state. *)
Theorem kick_requires_host sys now requester meetingId userId sys' resp :
  handle (PostKick now requester meetingId userId) sys = Some (sys', Some resp) →
  (code resp = 200 →
   ∃ m, meetings (directory sys) !! meetingId = Some m ∧ host_id m = requester) ∧
  (∀ m, meetings (directory sys) !! meetingId = Some m →
        host_id m ≠ requester →
        resp = mkResponse 403 (ErrorBody "Only host can kick participants") ∧
        sys' = sys).
Proof.
  simpl. destruct (post_kick now requester meetingId userId (directory sys))
    as [db' resp'] eqn:Hk.
  intros [= <- <-].
  pose proof (post_kick_cases now requester meetingId userId (directory sys)) as H.
  rewrite Hk in H. destruct (meetings (directory sys) !! meetingId) as [m|].
  - destruct (decide (host_id m = requester)) as [Hhost|Hhost].
    + split; [by exists m|]. by intros ? [= <-] ?.
    + injection H as -> ->; simpl. split; [done|]. intros ? _ _. by destruct sys.
  - injection H as -> ->. simpl. split; [done|]. by intros ? [=].
Qed.

(** User 2 asks to kick user 1 out of the meeting of user 1. *)
Lemma kick_requires_host_witness :
  ∃ sys,
    run in_meeting (started 10) = Some sys ∧
    handle (PostKick 9 2 "m" (Some 1)) sys
    = Some (sys, Some (mkResponse 403 (ErrorBody "Only host can kick participants"))) ∧
    (mkResponse 403 (ErrorBody "Only host can kick participants")
     = mkResponse 403 (ErrorBody "Only host can kick participants") ∧
     sys = sys).
Proof.
  eexists. split; [reflexivity|]. split; [reflexivity|].
  lazymatch goal with
  | |- ?resp = _ ∧ ?sys = _ =>
      destruct (kick_requires_host sys 9 2 "m" (Some 1) sys resp eq_refl) as [_ H]
  end.
  apply (H (meeting_of_1 10)); [reflexivity|discriminate].
Defined.

(** ** The socket side in reachable states *)

Section consistency.
Implicit Types (st : Srv) (io : Io) (s room : string).

Lemma members_join s room io room' :
  members (join s room io) room'
  = if decide (room = room') then {[s]} ∪ members io room else members io room'.
Proof.
  unfold join, members at 1. simpl. rewrite lookup_insert.
  case_decide; by subst.
Qed.

Lemma members_close s io room :
  members (close s io) room = members io room ∖ {[s]}.
Proof.
  unfold close, members. simpl. rewrite lookup_fmap.
  destruct (adapter io !! room); simpl; [done|]. set_solver.
Qed.

Lemma members_send to ev d io room :
  members (send to ev d io) room = members io room.
Proof. done. Qed.

Lemma consistent_on_connection s st :
  consistent st → consistent (on_connection s st).
Proof.
  intros (H1 & H2 & H3). unfold on_connection, connect.
  split; [|split]; simpl.
  - intros s'. rewrite members_join. unfold members at 1 2. simpl.
    fold (members (SocketHandlers.io st) s).
    fold (members (SocketHandlers.io st) s').
    case_decide; [set_solver|]. intros [?%elem_of_singleton|?]%elem_of_union;
      [congruence|by apply H1].
  - intros room s'. rewrite members_join. unfold members at 1 2. simpl.
    fold (members (SocketHandlers.io st) s).
    fold (members (SocketHandlers.io st) room).
    case_decide; [subst|]; specialize (H2 room s'); set_solver.
  - intros room l s' Hl Hs'. rewrite members_join. unfold members at 1 2.
    simpl. fold (members (SocketHandlers.io st) s).
    fold (members (SocketHandlers.io st) room).
    specialize (H3 room l s' Hl Hs'). case_decide; [subst|]; set_solver.
Qed.

Lemma consistent_on_join_room s room userId st st' :
  s ∈ connected (io st) →
  on_join_room s room userId st = Some st' →
  consistent st → consistent st'.
Proof.
  intros Hs Hj (H1 & H2 & H3).
  apply on_join_room_Some in Hj as (Hr & Ha & Hc & _); [|done].
  assert (∀ room', members (io st') room'
                   = members (join s room (io st)) room') as Hm
    by (intros room'; unfold members; by rewrite Ha).
  split; [|split].
  - intros s'. rewrite Hc, Hm, members_join. intros Hs'.
    specialize (H1 s' Hs'). case_decide; [subst|]; set_solver.
  - intros room' s'. rewrite Hc, Hm, members_join.
    case_decide; [subst|]; [|by apply H2].
    intros [?%elem_of_singleton|?]%elem_of_union; [by subst|by eapply H2].
  - intros room' l s'. rewrite Hr, Hm, members_join, lookup_insert.
    case_decide; [subst|]; [|by apply H3].
    intros [= <-] [Hin|Hin%list_elem_of_singleton]%elem_of_app;
      [|subst; set_solver].
    destruct (rooms st !! room') as [l0|] eqn:Hl0; simpl in Hin.
    + specialize (H3 room' l0 s' Hl0 Hin). set_solver.
    + by apply not_elem_of_nil in Hin.
Qed.

Lemma consistent_on_signal k s payload st :
  consistent st → consistent (on_signal k s payload st).
Proof.
  unfold on_signal. destruct (string_field _ _); [done|].
  by destruct (_ !! _) as [[]|].
Qed.

Lemma consistent_on_screen_sharing k s d st :
  consistent st → consistent (on_screen_sharing k s d st).
Proof.
  unfold on_screen_sharing. destruct (string_field _ _); [done|].
  by destruct (_ !! _) as [[]|].
Qed.

Lemma consistent_on_disconnect s st :
  consistent st → consistent (on_disconnect s st).
Proof.
  intros (H1 & H2 & H3). unfold on_disconnect, socket_broadcast_emit.
  split; [|split]; simpl.
  - intros s'. rewrite members_send, members_close.
    specialize (H1 s'). set_solver.
  - intros room s'. rewrite members_send, members_close.
    specialize (H2 room s'). set_solver.
  - intros room l s'. rewrite members_send, members_close.
    rewrite lookup_removeUserFromRoom.
    destruct (rooms st !! room) as [l0|] eqn:Hl0; simpl; [|done].
    intros [= <-] [Hne Hin]%list_elem_of_filter.
    specialize (H3 room l0 s' Hl0 Hin). set_solver.
Qed.

Lemma reachable_consistent sys : reachable sys → consistent (srv sys).
Proof.
  induction 1 as [|i sys sys' r _ IH Hen Hh].
  - split; [|split]; simpl.
    + intros s Hs. by apply not_elem_of_empty in Hs.
    + intros room s. unfold members. simpl. rewrite lookup_empty. simpl.
      intros Hs. by apply not_elem_of_empty in Hs.
    + intros room l s. unfold empty_rooms. by rewrite lookup_empty.
  - destruct i; simpl in Hh, Hen.
    + injection Hh as <- _. by apply consistent_on_connection.
    + destruct (on_join_room _ _ _ _) as [st'|] eqn:Hj; simpl in Hh; [|done].
      injection Hh as <- _. by eapply consistent_on_join_room.
    + injection Hh as <- _. by apply consistent_on_signal.
    + injection Hh as <- _. by apply consistent_on_screen_sharing.
    + injection Hh as <- _. by apply consistent_on_disconnect.
    + destruct (post_join _ _ _ _). by injection Hh as <- _.
    + destruct (post_end _ _ _ _). by injection Hh as <- _.
    + destruct (post_kick _ _ _ _ _). by injection Hh as <- _.
Qed.

End consistency.

(** ** Relayed signalling *)

Lemma io_to_emit_wire room ev d io :
  wire (io_to_emit room ev d io)
  = wire io ++ ((λ r, mkPacket r ev d)
                  <$> filter (λ r, r ∈ connected io) (elements (members io room))).
Proof. done. Qed.

(** C3 (as the code has it).  An offer, answer or candidate sent with target
    [b] goes to the socket.io room named [b], whatever [rooms] holds.  When
    no other socket has joined a room of that name: if [b] is connected it
    is sent exactly one packet, the payload with [caller] set to the id of
    the sender and every other field as received; if [b] is not connected
    nothing is sent to anyone.  Nothing else changes. *)
Theorem signal_goes_to_room_of_target sys k a payload b :
  reachable sys →
  string_field payload "target" = Some b →
  (∀ c, c ∈ members (io (srv sys)) b → c = b) →
  ∃ sys' out,
    handle (Signalling k a payload) sys = Some (sys', None) ∧
    directory sys' = directory sys ∧
    rooms (srv sys') = rooms (srv sys) ∧
    connected (io (srv sys')) = connected (io (srv sys)) ∧
    adapter (io (srv sys')) = adapter (io (srv sys)) ∧
    out !! "caller"%string = Some (JStr a) ∧
    (∀ f, f ≠ "caller"%string → out !! f = payload !! f) ∧
    wire (io (srv sys'))
    = wire (io (srv sys)) ++
      (if decide (b ∈ connected (io (srv sys)))
       then [mkPacket b (signal_event k) (DObj out)] else []).
Proof.
  intros Hreach Htarget Honly.
  destruct (reachable_consistent _ Hreach) as (H1 & H2 & _).
  simpl. unfold on_signal. rewrite Htarget.
  eexists _, (<["caller" := JStr a]> payload). split; [done|]. simpl.
  split; [done|]. split; [done|]. split; [done|]. split; [done|].
  split; [apply lookup_insert_eq|].
  split; [intros f Hf; by apply lookup_insert_ne|].
  f_equal. case_decide as Hb.
  - assert (members (io (srv sys)) b = {[b]}) as ->.
    { apply set_eq. intros c. rewrite elem_of_singleton. split; [apply Honly|].
      intros ->. by apply H1. }
    rewrite elements_singleton, filter_cons_True, filter_nil; done.
  - assert (members (io (srv sys)) b = ∅) as ->.
    { apply set_eq. intros c. split; [|by intros ?%not_elem_of_empty].
      intros Hc. exfalso. apply Hb. rewrite <- (Honly c Hc). by eapply H2. }
    by rewrite elements_empty.
Qed.

(** Sockets "a" and "b" are connected and have joined no room. *)
Lemma signal_goes_to_room_of_target_witness :
  let sys := mkSystem empty_db (on_connection "b" (on_connection "a" empty_srv)) in
  ∃ sys' out,
    handle (Signalling Offer "a" {["target" := JStr "b"; "sdp" := JStr "x"]}) sys
    = Some (sys', None) ∧
    directory sys' = directory sys ∧
    rooms (srv sys') = rooms (srv sys) ∧
    connected (io (srv sys')) = connected (io (srv sys)) ∧
    adapter (io (srv sys')) = adapter (io (srv sys)) ∧
    out !! "caller"%string = Some (JStr "a") ∧
    (∀ f, f ≠ "caller"%string →
          out !! f = ({["target" := JStr "b"; "sdp" := JStr "x"]} : gmap string json) !! f) ∧
    wire (io (srv sys'))
    = wire (io (srv sys)) ++
      (if decide ("b"%string ∈ connected (io (srv sys)))
       then [mkPacket "b" (signal_event Offer) (DObj out)] else []).
Proof.
  intros sys.
  apply (signal_goes_to_room_of_target sys Offer "a"
           {["target" := JStr "b"; "sdp" := JStr "x"]} "b").
  - apply (reachable_step (Connection "b")
             (mkSystem empty_db (on_connection "a" empty_srv)) sys None);
      [|vm_compute; discriminate|reflexivity].
    apply (reachable_step (Connection "a") initial _ None);
      [apply reachable_start|vm_compute; discriminate|reflexivity].
  - reflexivity.
  - intros c. unfold sys, on_connection, connect. simpl.
    rewrite members_join. simpl. unfold members. simpl.
    rewrite lookup_insert_ne, lookup_empty by done. simpl.
    rewrite elem_of_union, elem_of_singleton.
    intros [?|?%not_elem_of_empty]; done.
Defined.

(** C3 (as stated) fails.  Socket "b" has joined no room, so it is in no
    array of [rooms], and is sent the offer; and once socket "c" has joined
    a room named "b", "c" is sent the offers for "b" as well. *)
Lemma signal_ignores_registry :
  (∃ sys sys',
     run [Connection "a"; Connection "b"] initial = Some sys ∧
     (∀ room, "b"%string ∉ default [] (rooms (srv sys) !! room)) ∧
     handle (Signalling Offer "a" {["target" := JStr "b"; "sdp" := JStr "x"]}) sys
     = Some (sys', None) ∧
     inbox "b" (io (srv sys'))
     = [mkPacket "b" "offer"
          (DObj {["target" := JStr "b"; "sdp" := JStr "x"; "caller" := JStr "a"]})]) ∧
  (∃ sys sys',
     run [Connection "a"; Connection "b"; Connection "c"; JoinRoom "c" "b" "u"]
         initial = Some sys ∧
     handle (Signalling Offer "a" {["target" := JStr "b"; "sdp" := JStr "x"]}) sys
     = Some (sys', None) ∧
     inbox "c" (io (srv sys'))
     = [mkPacket "c" "all-users" (DList []);
        mkPacket "c" "offer"
          (DObj {["target" := JStr "b"; "sdp" := JStr "x"; "caller" := JStr "a"]})]).
Proof.
  split.
  - eexists _, _. split; [reflexivity|]. split; [|split; [reflexivity|]].
    + intros room. simpl. unfold empty_rooms. rewrite lookup_empty.
      apply not_elem_of_nil.
    + vm_compute. reflexivity.
  - eexists _, _. split; [reflexivity|]. split; [reflexivity|].
    vm_compute. reflexivity.
Qed.

(** ** Screen sharing *)

(** The object sent out: [userId] is the one of [data] when it has one, and
    the id of the sender otherwise. *)
Lemma screen_sharing_user_tag (data : gmap string json) s :
  (data ∪ {["userId" := JStr s]}) !! "userId"%string
  = Some (default (JStr s) (data !! "userId"%string)).
Proof.
  destruct (data !! "userId"%string) as [v|] eqn:Hv; simpl.
  - by apply lookup_union_Some_l.
  - rewrite lookup_union_r by done. apply lookup_singleton_eq.
Qed.

(** Every other socket listed in [rooms] under [data.roomId] is sent the
    event, unless it has joined the room named by the id of the sender. *)
Lemma screen_sharing_reaches_room sys k a (d : gmap string json) room c :
  reachable sys →
  string_field d "roomId" = Some room →
  c ∈ default [] (rooms (srv sys) !! room) →
  c ≠ a →
  c ∉ members (io (srv sys)) a →
  mkPacket c (screen_event k) (DObj (d ∪ {["userId" := JStr a]}))
  ∈ wire (io (on_screen_sharing k a d (srv sys))).
Proof.
  intros Hreach Hroom Hc Hne Hout.
  destruct (reachable_consistent _ Hreach) as (_ & H2 & H3).
  destruct (rooms (srv sys) !! room) as [l|] eqn:Hl; simpl in Hc;
    [|by apply not_elem_of_nil in Hc].
  pose proof (H3 _ _ _ Hl Hc) as Hmem. pose proof (H2 _ _ Hmem) as Hconn.
  unfold on_screen_sharing. rewrite Hroom. simpl.
  apply elem_of_app. right. apply list_elem_of_fmap. exists c. split; [done|].
  apply list_elem_of_filter. split; [done|].
  apply elem_of_elements. unfold excepted. set_solver.
Qed.

(** C9, at an input where the code departs from it.  Sockets "a" and "b"
    are in room "m"; "a" announces screen sharing with a [userId] field of
    its own choosing; "b" is sent the event tagged with that value, not with
    the id of "a". *)
Theorem screen_sharing_tag_taken_from_payload :
  ∃ sys sys',
    run [Connection "a"; Connection "b"; JoinRoom "a" "m" "1"; JoinRoom "b" "m" "2"]
        initial = Some sys ∧
    handle (ScreenShare Started "a"
              {["roomId" := JStr "m"; "userId" := JStr "someone-else"]}) sys
    = Some (sys', None) ∧
    inbox "b" (io (srv sys'))
    = inbox "b" (io (srv sys)) ++
      [mkPacket "b" "screen-sharing-started"
         (DObj {["roomId" := JStr "m"; "userId" := JStr "someone-else"]})].
Proof.
  eexists _, _. split; [reflexivity|]. split; [reflexivity|].
  vm_compute. reflexivity.
Qed.

(** ** Two runs *)

(** A meeting for two: the host and one more user join, the third request
    is refused. *)
Example third_join_meeting_full :
  ∃ sys,
    run [PostJoin 0 1 "m"; PostJoin 1 2 "m"] (started 2) = Some sys ∧
    handle (PostJoin 2 3 "m") sys
    = Some (sys, Some (mkResponse 400 (ErrorBody "Meeting is full"))).
Proof. eexists. split; reflexivity. Qed.

(** A room id that names a property of [Object.prototype] makes
    [addUserToRoom] throw. *)
Example join_room_constructor_throws :
  addUserToRoom "constructor" "a" empty_rooms = None ∧
  handle (JoinRoom "a" "constructor" "1")
         (mkSystem empty_db (on_connection "a" empty_srv)) = None.
Proof. split; reflexivity. Qed.

(** * Further properties of the routes and listeners above *)

(** ** The directory across inputs *)

Section directory.
Implicit Types (db : Db) (rows : list Participant) (p : Participant).

(** Only the three routes write to the directory. *)
Lemma handle_directory i sys sys' r :
  handle i sys = Some (sys', r) →
  match i with
  | PostJoin now userId meetingId =>
      directory sys' = (post_join now userId meetingId (directory sys)).1
  | PostEnd now userId meetingId =>
      directory sys' = (post_end now userId meetingId (directory sys)).1
  | PostKick now requester meetingId userId =>
      directory sys' = (post_kick now requester meetingId userId (directory sys)).1
  | _ => directory sys' = directory sys
  end.
Proof.
  destruct i; simpl; try (by intros [= <- _]).
  - destruct (on_join_room _ _ _ _); simpl; [|done]. by intros [= <- _].
  - destruct (post_join _ _ _ _). by intros [= <- _].
  - destruct (post_end _ _ _ _). by intros [= <- _].
  - destruct (post_kick _ _ _ _ _). by intros [= <- _].
Qed.

Lemma live_count_update_left_le `{∀ p, Decision (P p)} now meetingId rows :
  (length (filter (live_in meetingId) (update_left (P := P) now rows))
   ≤ length (filter (live_in meetingId) rows))%nat.
Proof.
  unfold update_left. induction rows as [|p rows IH]; [done|].
  rewrite fmap_cons, !filter_cons. destruct (decide (P p)).
  - rewrite decide_False by (unfold live_in; simpl; intros [_ ?]; done).
    case_decide; cbn [length]; lia.
  - case_decide; cbn [length]; lia.
Qed.

Lemma live_count_insert_other now meetingId userId meetingId' rows :
  meetingId' ≠ meetingId →
  filter (live_in meetingId') (insert_participant now meetingId userId rows)
  = filter (live_in meetingId') rows.
Proof.
  intros Hne. unfold insert_participant. case_decide; [done|].
  rewrite filter_app, filter_cons_False, filter_nil, app_nil_r; [done|].
  unfold live_in. simpl. intros [? _]. congruence.
Qed.

Lemma post_join_meetings now userId meetingId db :
  meetings (post_join now userId meetingId db).1 = meetings db.
Proof.
  unfold post_join. destruct (meetings db !! meetingId); [|done].
  by repeat (case_decide; simpl).
Qed.

Lemma post_kick_meetings now requester meetingId userId db :
  meetings (post_kick now requester meetingId userId db).1 = meetings db.
Proof.
  unfold post_kick. destruct (meetings db !! meetingId); [|done].
  case_decide; [done|]. destruct userId; [|done]. by case_decide.
Qed.

(** [/end] rewrites one row of [meetings], and only its status and end time. *)
Lemma post_end_meetings now userId meetingId db meetingId' m' :
  meetings (post_end now userId meetingId db).1 !! meetingId' = Some m' →
  ∃ m, meetings db !! meetingId' = Some m ∧
       (m' = m ∨ m' = set_ended now m).
Proof.
  unfold post_end. destruct (meetings db !! meetingId) as [m0|] eqn:Hm0;
    [|by eauto].
  case_decide; simpl; [by eauto|].
  rewrite lookup_insert. case_decide; [subst|by eauto].
  intros [= <-]. eauto.
Qed.

Lemma post_join_capacity now userId meetingId db :
  (∀ mid m, meetings db !! mid = Some m →
            current_participants db mid <= max_participants m) →
  ∀ mid m, meetings (post_join now userId meetingId db).1 !! mid = Some m →
           current_participants (post_join now userId meetingId db).1 mid
           <= max_participants m.
Proof.
  intros Hcap mid m. rewrite post_join_meetings. intros Hm.
  pose proof (post_join_cases now userId meetingId db) as H.
  destruct (meetings db !! meetingId) as [m0|] eqn:Hm0;
    [|rewrite H; by apply Hcap].
  destruct (decide (status m0 = "ended"%string)); [rewrite H; by apply Hcap|].
  destruct (decide (_ >= _)) as [|Hlt]; [rewrite H; by apply Hcap|].
  rewrite H. unfold current_participants in *. simpl.
  destruct (decide (mid = meetingId)) as [->|Hne].
  - assert (m = m0) as -> by congruence.
    pose proof (live_count_insert now meetingId userId (meeting_participants db)).
    lia.
  - rewrite live_count_insert_other by done. by apply Hcap.
Qed.

Lemma post_end_capacity now userId meetingId db :
  (∀ mid m, meetings db !! mid = Some m →
            current_participants db mid <= max_participants m) →
  ∀ mid m, meetings (post_end now userId meetingId db).1 !! mid = Some m →
           current_participants (post_end now userId meetingId db).1 mid
           <= max_participants m.
Proof.
  intros Hcap mid m Hm.
  destruct (post_end_meetings _ _ _ _ _ _ Hm) as (m1 & Hm1 & Hmm).
  assert (max_participants m = max_participants m1) as ->
    by (destruct Hmm as [->| ->]; done).
  specialize (Hcap mid m1 Hm1). clear Hm.
  unfold post_end. destruct (meetings db !! meetingId); [|done].
  case_decide; [done|]. unfold current_participants in *. simpl.
  pose proof (live_count_update_left_le (P := live_in meetingId) now mid
                (meeting_participants db)). lia.
Qed.

Lemma post_kick_capacity now requester meetingId userId db :
  (∀ mid m, meetings db !! mid = Some m →
            current_participants db mid <= max_participants m) →
  ∀ mid m, meetings (post_kick now requester meetingId userId db).1 !! mid = Some m →
           current_participants (post_kick now requester meetingId userId db).1 mid
           <= max_participants m.
Proof.
  intros Hcap mid m. rewrite post_kick_meetings. intros Hm.
  specialize (Hcap mid m Hm).
  unfold post_kick. destruct (meetings db !! meetingId); [|done].
  case_decide; [done|]. destruct userId as [u|]; [|done].
  case_decide; [done|]. unfold current_participants in *. simpl.
  pose proof (live_count_update_left_le (P := is_record meetingId u) now mid
                (meeting_participants db)). lia.
Qed.

End directory.

(** X1.  If no meeting in the directory has more live participant rows than
    its [max_participants], the same holds after any inputs the process
    handles. *)
Theorem capacity_holds_along_runs inputs sys sys' :
  run inputs sys = Some sys' →
  (∀ mid m, meetings (directory sys) !! mid = Some m →
            current_participants (directory sys) mid <= max_participants m) →
  ∀ mid m, meetings (directory sys') !! mid = Some m →
           current_participants (directory sys') mid <= max_participants m.
Proof.
  revert sys. induction inputs as [|i inputs IH]; intros sys; simpl.
  - by intros [= ->].
  - destruct (handle i sys) as [[sys1 r]|] eqn:Hi; simpl; [|done].
    intros Hrun Hcap. apply (IH sys1 Hrun). clear IH Hrun.
    apply handle_directory in Hi. destruct i; try (by rewrite Hi).
    + rewrite Hi. by apply post_join_capacity.
    + rewrite Hi. by apply post_end_capacity.
    + rewrite Hi. by apply post_kick_capacity.
Qed.

(** A meeting for two, three join requests, a kick and a fourth request. *)
Lemma capacity_holds_along_runs_witness :
  ∃ sys',
    run [PostJoin 0 1 "m"; PostJoin 1 2 "m"; PostJoin 2 3 "m";
         PostKick 3 1 "m" (Some 2); PostJoin 4 3 "m"] (started 2) = Some sys' ∧
    current_participants (directory sys') "m" = 2 ∧
    ∀ mid m, meetings (directory sys') !! mid = Some m →
             current_participants (directory sys') mid <= max_participants m.
Proof.
  destruct (run [PostJoin 0 1 "m"; PostJoin 1 2 "m"; PostJoin 2 3 "m";
                 PostKick 3 1 "m" (Some 2); PostJoin 4 3 "m"] (started 2))
    as [sys'|] eqn:Hrun; [|vm_compute in Hrun; discriminate].
  exists sys'. split; [reflexivity|]. split.
  - vm_compute in Hrun. injection Hrun as <-. reflexivity.
  - apply (capacity_holds_along_runs _ _ _ Hrun).
    intros mid m. unfold started. simpl.
    destruct (decide (mid = "m"%string)) as [->|Hne].
    + rewrite lookup_singleton_eq. by intros [= <-].
    + by rewrite lookup_singleton_ne.
Defined.

(** ** Ended meetings *)

Lemma post_end_lookup now userId meetingId db mid m :
  meetings db !! mid = Some m →
  ∃ m', meetings (post_end now userId meetingId db).1 !! mid = Some m' ∧
        (m' = m ∨ m' = set_ended now m).
Proof.
  intros Hm. unfold post_end.
  destruct (meetings db !! meetingId) as [m0|] eqn:Hm0; [|by eauto].
  case_decide; simpl; [by eauto|].
  rewrite lookup_insert. case_decide; [subst|by eauto].
  assert (m0 = m) as -> by congruence. eauto.
Qed.

Lemma handle_keeps_ended i sys sys' r mid m :
  handle i sys = Some (sys', r) →
  meetings (directory sys) !! mid = Some m →
  status m = "ended"%string →
  ∃ m', meetings (directory sys') !! mid = Some m' ∧ status m' = "ended"%string.
Proof.
  intros Hi Hm Hst. apply handle_directory in Hi.
  destruct i; try (rewrite Hi; by eauto).
  - rewrite Hi, post_join_meetings. eauto.
  - rewrite Hi.
    destruct (post_end_lookup now userId meetingId _ _ _ Hm) as (m' & -> & [->| ->]);
      eauto.
  - rewrite Hi, post_kick_meetings. eauto.
Qed.

(** X2.  A meeting whose status is "ended" stays ended whatever the process
    handles afterwards, and every later [/join] request for it, by anyone,
    is answered 400 "Meeting has ended" and changes nothing. *)
Theorem ended_meeting_stays_closed inputs sys sys' mid m :
  meetings (directory sys) !! mid = Some m →
  status m = "ended"%string →
  run inputs sys = Some sys' →
  (∃ m', meetings (directory sys') !! mid = Some m' ∧ status m' = "ended"%string) ∧
  ∀ now userId,
    handle (PostJoin now userId mid) sys'
    = Some (sys', Some (mkResponse 400 (ErrorBody "Meeting has ended"))).
Proof.
  intros Hm Hst Hrun.
  assert (∃ m', meetings (directory sys') !! mid = Some m' ∧
                status m' = "ended"%string) as (m' & Hm' & Hst').
  { revert sys m Hm Hst Hrun. induction inputs as [|i inputs IH];
      intros sys m Hm Hst; simpl.
    - intros [= <-]. eauto.
    - destruct (handle i sys) as [[sys1 r]|] eqn:Hi; simpl; [|done].
      destruct (handle_keeps_ended _ _ _ _ _ _ Hi Hm Hst) as (m1 & Hm1 & Hst1).
      by apply (IH sys1 m1). }
  split; [by eauto|]. intros now userId. simpl.
  pose proof (post_join_cases now userId mid (directory sys')) as H.
  rewrite Hm' in H. destruct (decide (status m' = "ended"%string)); [|done].
  rewrite H. by destruct sys'.
Qed.

(** The host ends "m"; user 2 is kicked, a socket joins the room; user 3
    asks to join. *)
Lemma ended_meeting_stays_closed_witness :
  ∃ sys sys',
    run (in_meeting ++ [PostEnd 5 1 "m"]) (started 10) = Some sys ∧
    run [PostKick 6 1 "m" (Some 2); Connection "b"; JoinRoom "b" "m" "3"] sys = Some sys' ∧
    handle (PostJoin 7 3 "m") sys'
    = Some (sys', Some (mkResponse 400 (ErrorBody "Meeting has ended"))).
Proof.
  set (sys := default (started 10)
                (run (in_meeting ++ [PostEnd 5 1 "m"]) (started 10))).
  set (sys' := default sys
                 (run [PostKick 6 1 "m" (Some 2); Connection "b"; JoinRoom "b" "m" "3"]
                      sys)).
  exists sys, sys'. split; [reflexivity|]. split; [reflexivity|].
  apply (proj2 (ended_meeting_stays_closed
                  [PostKick 6 1 "m" (Some 2); Connection "b"; JoinRoom "b" "m" "3"]
                  sys sys' "m" (set_ended 5 (meeting_of_1 10))
                  eq_refl eq_refl eq_refl)).
Defined.

(** X3.  [/end] is carried out only for the host recorded in the directory;
    for anyone else it answers 403, for an unknown meeting 404, and in both
    cases nothing changes. *)
Theorem end_requires_host sys now userId meetingId sys' resp :
  handle (PostEnd now userId meetingId) sys = Some (sys', Some resp) →
  (code resp = 200 →
   ∃ m, meetings (directory sys) !! meetingId = Some m ∧ host_id m = userId) ∧
  (∀ m, meetings (directory sys) !! meetingId = Some m → host_id m ≠ userId →
        resp = mkResponse 403 (ErrorBody "Only host can end the meeting") ∧
        sys' = sys) ∧
  (meetings (directory sys) !! meetingId = None →
   resp = mkResponse 404 (ErrorBody "Meeting not found") ∧ sys' = sys).
Proof.
  simpl. destruct (post_end now userId meetingId (directory sys))
    as [db' resp'] eqn:He.
  intros [= <- <-].
  pose proof (post_end_cases now userId meetingId (directory sys)) as H.
  rewrite He in H. destruct (meetings (directory sys) !! meetingId) as [m|].
  - destruct (decide (host_id m = userId)) as [Hhost|Hhost];
      injection H as -> ->; simpl.
    + split; [by exists m|]. split; [by intros ? [= <-] ?|done].
    + split; [done|]. split; [|done]. intros ? _ _. by destruct sys.
  - injection H as -> ->. simpl. split; [done|]. split; [by intros ? [=]|].
    intros _. by destruct sys.
Qed.

Lemma end_requires_host_witness :
  ∃ sys,
    run in_meeting (started 10) = Some sys ∧
    handle (PostEnd 9 2 "m") sys
    = Some (sys, Some (mkResponse 403 (ErrorBody "Only host can end the meeting"))) ∧
    handle (PostEnd 9 1 "n") sys
    = Some (sys, Some (mkResponse 404 (ErrorBody "Meeting not found"))).
Proof.
  eexists. split; [reflexivity|].
  lazymatch goal with
  | |- handle ?i1 ?sys = Some (_, Some ?r1) ∧ handle ?i2 _ = Some (_, Some ?r2) =>
      destruct (end_requires_host sys 9 2 "m" sys r1 eq_refl) as (_ & H1 & _);
      destruct (end_requires_host sys 9 1 "n" sys r2 eq_refl) as (_ & _ & H2)
  end.
  destruct (H1 (meeting_of_1 10)) as [_ _]; [reflexivity|discriminate|].
  destruct H2 as [_ _]; [reflexivity|].
  split; reflexivity.
Defined.

(** ** The rows of [meeting_participants] *)

Section participant_rows.
Implicit Types (db : Db) (rows : list Participant) (p : Participant).

Lemma set_left_key now p :
  (meeting_id (set_left now p), user_id (set_left now p))
  = (meeting_id p, user_id p).
Proof. done. Qed.

Lemma update_left_keys `{∀ p, Decision (P p)} now rows :
  (λ p, (meeting_id p, user_id p)) <$> update_left (P := P) now rows
  = (λ p, (meeting_id p, user_id p)) <$> rows.
Proof.
  unfold update_left. rewrite <- list_fmap_compose. apply list_fmap_ext.
  intros _ p _. simpl. by case_decide.
Qed.

Lemma insert_participant_keys now meetingId userId rows :
  NoDup ((λ p, (meeting_id p, user_id p)) <$> rows) →
  NoDup ((λ p, (meeting_id p, user_id p))
           <$> insert_participant now meetingId userId rows).
Proof.
  intros Hnd. unfold insert_participant. case_decide as Hex; [done|].
  rewrite fmap_app. apply NoDup_app. split; [done|]. split.
  - intros k Hk [->|[]%elem_of_nil]%elem_of_cons. apply Hex.
    apply list_elem_of_fmap in Hk as (p & [= Hm Hu] & Hp).
    apply Exists_exists. exists p. by split.
  - apply NoDup_singleton.
Qed.

(** Applying a key-preserving change to rows commutes with selecting a
    (meeting, user) pair. *)
Lemma record_of_update_left `{∀ p, Decision (P p)} now ms rows meetingId userId :
  record_of (mkDb ms (update_left (P := P) now rows)) meetingId userId
  = (λ p, if decide (P p) then set_left now p else p)
      <$> record_of (mkDb ms rows) meetingId userId.
Proof.
  unfold record_of, update_left. simpl.
  induction rows as [|p rows IH]; [done|]. rewrite fmap_cons, !filter_cons.
  assert (is_record meetingId userId
            (if decide (P p) then set_left now p else p)
          ↔ is_record meetingId userId p) as Hiff
    by (case_decide; done).
  destruct (decide (is_record meetingId userId p)) as [Hp|Hp].
  - by rewrite decide_True by (by apply Hiff).
  - by rewrite decide_False by (by rewrite Hiff).
Qed.

End participant_rows.

(** X4.  No input makes two rows of [meeting_participants] carry the same
    (meeting, user) pair: the routes keep [UNIQUE(meeting_id, user_id)]. *)
Theorem routes_keep_rows_unique inputs sys sys' :
  run inputs sys = Some sys' →
  NoDup ((λ p, (meeting_id p, user_id p))
           <$> meeting_participants (directory sys)) →
  NoDup ((λ p, (meeting_id p, user_id p))
           <$> meeting_participants (directory sys')).
Proof.
  revert sys. induction inputs as [|i inputs IH]; intros sys; simpl.
  - by intros [= ->].
  - destruct (handle i sys) as [[sys1 r]|] eqn:Hi; simpl; [|done].
    intros Hrun Hnd. apply (IH sys1 Hrun). clear IH Hrun.
    apply handle_directory in Hi. destruct i; try (by rewrite Hi); rewrite Hi.
    + unfold post_join. destruct (meetings _ !! _); [|done].
      repeat (case_decide; simpl; [done|]). by apply insert_participant_keys.
    + unfold post_end. destruct (meetings _ !! _); [|done].
      case_decide; simpl; [done|]. by rewrite update_left_keys.
    + unfold post_kick. destruct (meetings _ !! _); [|done].
      case_decide; simpl; [done|]. destruct userId; [|done].
      case_decide; simpl; [done|]. by rewrite update_left_keys.
Qed.

(** User 2 joins, is kicked and joins twice more. *)
Lemma routes_keep_rows_unique_witness :
  ∃ sys',
    run [PostJoin 0 1 "m"; PostJoin 1 2 "m"; PostKick 2 1 "m" (Some 2);
         PostJoin 3 2 "m"; PostJoin 4 2 "m"] (started 10) = Some sys' ∧
    length (meeting_participants (directory sys')) = 2%nat ∧
    NoDup ((λ p, (meeting_id p, user_id p))
             <$> meeting_participants (directory sys')).
Proof.
  set (inputs := [PostJoin 0 1 "m"; PostJoin 1 2 "m"; PostKick 2 1 "m" (Some 2);
                  PostJoin 3 2 "m"; PostJoin 4 2 "m"]).
  set (sys' := default (started 10) (run inputs (started 10))).
  exists sys'. split; [reflexivity|]. split; [reflexivity|].
  apply (routes_keep_rows_unique inputs (started 10) sys' eq_refl).
  apply NoDup_nil_2.
Defined.

(** X5.  A kick by the host for a user id that is an INTEGER stamps the row
    of that (meeting, user) pair with the time of the request, also when the
    row was stamped before, and leaves every other row and the meetings as
    they were; when the pair has no row the answer is still 200 and nothing
    changes.  For a path parameter that spells no number, or a number that
    is no INTEGER, the host is answered 500 and nothing changes. *)
Theorem kick_marks_only_that_user db now requester meetingId userId m :
  meetings db !! meetingId = Some m →
  host_id m = requester →
  -2147483648 ≤ userId ≤ 2147483647 →
  (∃ db',
     post_kick now requester meetingId (Some userId) db
     = (db', mkResponse 200 (MessageBody "Participant kicked successfully")) ∧
     meetings db' = meetings db ∧
     record_of db' meetingId userId
     = set_left now <$> record_of db meetingId userId ∧
     (∀ meetingId' userId',
        (meetingId', userId') ≠ (meetingId, userId) →
        record_of db' meetingId' userId' = record_of db meetingId' userId') ∧
     (record_of db meetingId userId = None → db' = db)) ∧
  (∀ other,
     (∀ v, other = Some v → v < -2147483648 ∨ 2147483647 < v) →
     post_kick now requester meetingId other db
     = (db, mkResponse 500 (ErrorBody "Failed to kick participant"))).
Proof.
  intros Hm Hhost Hint. split.
  - pose proof (post_kick_cases now requester meetingId (Some userId) db) as H.
    rewrite Hm in H. destruct (decide (host_id m = requester)); [|done].
    rewrite decide_True in H by done.
    eexists. split; [exact H|]. simpl. split; [done|].
    assert (∀ meetingId' userId',
              record_of {| meetings := meetings db;
                           meeting_participants :=
                             update_left (P := is_record meetingId userId) now
                               (meeting_participants db) |} meetingId' userId'
              = (λ p, if decide (is_record meetingId userId p)
                      then set_left now p else p)
                  <$> record_of db meetingId' userId') as Hrec.
    { intros. rewrite record_of_update_left. by destruct db. }
    split; [|split].
    + rewrite Hrec. destruct (record_of db meetingId userId) as [p|] eqn:Hp; [|done].
      apply record_of_Some in Hp as [_ Hp]. simpl. by rewrite decide_True.
    + intros meetingId' userId' Hne. rewrite Hrec.
      destruct (record_of db meetingId' userId') as [p|] eqn:Hp; [|done].
      apply record_of_Some in Hp as [_ [Hp1 Hp2]]. simpl.
      rewrite decide_False; [done|]. intros [? ?]. apply Hne. congruence.
    + intros Hnone. apply record_of_None in Hnone. destruct db as [ms rows].
      simpl in *. f_equal. unfold update_left. clear -Hnone.
      induction rows as [|p rows IH]; [done|]. rewrite fmap_cons.
      rewrite decide_False by (intros ?; apply Hnone; by left).
      f_equal. apply IH. intros Hex. apply Hnone. by right.
  - intros other Hother.
    pose proof (post_kick_cases now requester meetingId other db) as H.
    rewrite Hm in H. destruct (decide (host_id m = requester)); [|done].
    destruct other as [v|]; [|done].
    rewrite decide_False in H; [done|]. specialize (Hother v eq_refl). lia.
Qed.

(** The host kicks user 2 a second time, later; then asks for a user id
    that is one more than the largest INTEGER, and for one that is no
    number. *)
Lemma kick_marks_only_that_user_witness :
  (∃ db',
     post_kick 8 1 "m" (Some 2) db_after_kick
     = (db', mkResponse 200 (MessageBody "Participant kicked successfully")) ∧
     record_of db' "m" 2 = Some (mkParticipant "m" 2 None 1 (Some 8)) ∧
     record_of db' "m" 1 = Some (mkParticipant "m" 1 None 0 None)) ∧
  post_kick 8 1 "m" (Some 2147483648) db_after_kick
  = (db_after_kick, mkResponse 500 (ErrorBody "Failed to kick participant")) ∧
  post_kick 8 1 "m" None db_after_kick
  = (db_after_kick, mkResponse 500 (ErrorBody "Failed to kick participant")).
Proof.
  destruct (kick_marks_only_that_user db_after_kick 8 1 "m" 2 (meeting_of_1 10)
              eq_refl eq_refl ltac:(lia))
    as [(db' & H & _ & Hrec & Hother & _) Hfail].
  split; [|split].
  - exists db'. split; [exact H|]. split; [exact Hrec|].
    rewrite (Hother "m" 1); [reflexivity|discriminate].
  - apply Hfail. intros v [= <-]. lia.
  - apply Hfail. intros v [=].
Defined.

(** ** Who is sent what *)

Section deliveries.
Implicit Types (io : Io) (s c : string) (d : EventData).

Lemma packets_for_one c (to : list string) ev d :
  NoDup to → c ∈ to →
  filter (λ p, recipient p = c) ((λ r, mkPacket r ev d) <$> to) = [mkPacket c ev d].
Proof.
  induction 1 as [|x to Hx Hnd IH]; [by intros ?%elem_of_nil|].
  rewrite fmap_cons, filter_cons. simpl.
  intros [->|Hc]%elem_of_cons.
  - rewrite decide_True by done. by rewrite packets_for_other.
  - rewrite decide_False by (intros ->; done). by apply IH.
Qed.

Lemma inbox_send_once c to ev d io :
  NoDup to → c ∈ to → c ∈ connected io →
  inbox c (send to ev d io) = inbox c io ++ [mkPacket c ev d].
Proof.
  intros Hnd Hc Hconn. rewrite inbox_send. f_equal.
  apply packets_for_one.
  - by apply NoDup_filter.
  - by apply list_elem_of_filter.
Qed.

(** A signalling event whose [target] is the empty array is sent to every
    connected socket, the sender included. *)
Lemma signal_to_empty_array k s payload st c :
  payload !! "target"%string = Some (JArr []) →
  c ∈ connected (SocketHandlers.io st) →
  inbox c (SocketHandlers.io (on_signal k s payload st))
  = inbox c (SocketHandlers.io st) ++
    [mkPacket c (signal_event k) (DObj (<["caller"%string := JStr s]> payload))].
Proof.
  intros Htarget Hc. unfold on_signal, string_field. rewrite Htarget. simpl.
  unfold io_to_rooms_emit. simpl.
  apply inbox_send_once; [apply NoDup_elements| |done].
  by apply elem_of_elements.
Qed.

(** A screen-sharing event whose [roomId] is the empty array is sent to
    every connected socket that is not in the room named by the id of the
    sender. *)
Lemma screen_sharing_to_empty_array k s (data : gmap string json) st c :
  data !! "roomId"%string = Some (JArr []) →
  c ∈ connected (SocketHandlers.io st) →
  c ≠ s →
  c ∉ members (SocketHandlers.io st) s →
  inbox c (SocketHandlers.io (on_screen_sharing k s data st))
  = inbox c (SocketHandlers.io st) ++
    [mkPacket c (screen_event k) (DObj (data ∪ {["userId"%string := JStr s]}))].
Proof.
  intros Hroom Hc Hne Hout. unfold on_screen_sharing, string_field.
  rewrite Hroom. simpl. unfold socket_to_rooms_emit, excepted. simpl.
  apply inbox_send_once; [apply NoDup_elements| |done].
  apply elem_of_elements. set_solver.
Qed.

(** An array names the rooms of its strings: a signalling event whose
    [target] is an array of a number names no room and is sent to
    nobody. *)
Lemma signal_to_array_of_number k s payload st n :
  payload !! "target"%string = Some (JArr [JNum n]) →
  wire (SocketHandlers.io (on_signal k s payload st)) = wire (SocketHandlers.io st).
Proof.
  intros Htarget. unfold on_signal, string_field. rewrite Htarget. simpl.
  unfold io_to_rooms_emit, send. simpl.
  rewrite elements_empty. simpl. apply app_nil_r.
Qed.

End deliveries.

(** X6.  When a socket disconnects, every other connected socket that has
    not joined the room named by its id is sent exactly one "user-left" with
    that id, whether or not the two ever were in the same room; a socket
    that has joined the room of that name, and the socket itself, are sent
    nothing. *)
Theorem disconnect_notifies_every_other_socket sys s c :
  c ∈ connected (io (srv sys)) →
  c ≠ s →
  ∃ sys',
    handle (Disconnect s) sys = Some (sys', None) ∧
    inbox c (io (srv sys'))
    = inbox c (io (srv sys)) ++
      (if decide (c ∈ members (io (srv sys)) s) then []
       else [mkPacket c "user-left" (DStr s)]) ∧
    inbox s (io (srv sys')) = inbox s (io (srv sys)).
Proof.
  intros Hc Hne. eexists. split; [reflexivity|]. simpl.
  unfold socket_broadcast_emit, excepted. rewrite members_close. split.
  - case_decide as Hin.
    + rewrite app_nil_r, inbox_send_other; [done|].
      rewrite elem_of_elements. simpl. set_solver.
    + rewrite inbox_send_once; [done|apply NoDup_elements| |]; simpl.
      * apply elem_of_elements. set_solver.
      * set_solver.
  - rewrite inbox_send_other; [done|]. rewrite elem_of_elements. set_solver.
Qed.

(** Socket "b" never joined a room, socket "c" joined the room named "a";
    socket "a" of room "m" disconnects. *)
Lemma disconnect_notifies_every_other_socket_witness :
  ∃ sys sys',
    run (in_meeting ++ [Connection "b"; Connection "c"; JoinRoom "c" "a" "3"])
        (started 10) = Some sys ∧
    (∀ room, "b"%string ∉ default [] (rooms (srv sys) !! room)) ∧
    handle (Disconnect "a") sys = Some (sys', None) ∧
    inbox "b" (io (srv sys'))
    = inbox "b" (io (srv sys)) ++ [mkPacket "b" "user-left" (DStr "a")] ∧
    inbox "c" (io (srv sys')) = inbox "c" (io (srv sys)) ∧
    inbox "a" (io (srv sys')) = inbox "a" (io (srv sys)).
Proof.
  set (sys := default (started 10)
                (run (in_meeting ++ [Connection "b"; Connection "c";
                                     JoinRoom "c" "a" "3"]) (started 10))).
  destruct (disconnect_notifies_every_other_socket sys "a" "b")
    as (sys' & H & Hb & Ha); [vm_compute; reflexivity|discriminate|].
  destruct (disconnect_notifies_every_other_socket sys "a" "c")
    as (sys'' & H' & Hc & _); [vm_compute; reflexivity|discriminate|].
  assert (sys'' = sys') as -> by congruence.
  exists sys, sys'. split; [reflexivity|]. split; [|split; [exact H|]].
  { intros room. change (rooms (srv sys)) with
      (<["a"%string := ["c"%string]]>
         (<["m"%string := ["a"%string]]> (∅ : gmap string (list string)))).
    rewrite !lookup_insert. repeat case_decide; simpl;
      rewrite ?lookup_empty; simpl;
      first [apply not_elem_of_nil
            |by intros [[=]|[]%elem_of_nil]%elem_of_cons]. }
  split; [|split; [|exact Ha]].
  - rewrite Hb. rewrite decide_False; [done|]. vm_compute. discriminate.
  - rewrite Hc. rewrite decide_True; [apply app_nil_r|]. vm_compute. reflexivity.
Defined.

(** X7.  A [join-room] that goes through sends the joining socket exactly
    one "all-users" with the array of the room as it was, without its own
    id, and sends "user-joined" exactly once to every other connected socket
    of the socket.io room of that name that has not joined the room named by
    the id of the joining socket, and to nobody else. *)
Theorem join_room_announcements sys s roomId userId c :
  s ∈ connected (io (srv sys)) →
  inherited roomId = false →
  c ∈ connected (io (srv sys)) →
  c ≠ s →
  ∃ sys',
    handle (JoinRoom s roomId userId) sys = Some (sys', None) ∧
    inbox s (io (srv sys'))
    = inbox s (io (srv sys)) ++
      [mkPacket s "all-users"
         (DList (filter (λ id, id ≠ s) (default [] (rooms (srv sys) !! roomId))))] ∧
    inbox c (io (srv sys'))
    = inbox c (io (srv sys)) ++
      (if decide (c ∈ members (io (srv sys)) roomId ∧ c ∉ members (io (srv sys)) s)
       then [mkPacket c "user-joined" (DStr s)] else []).
Proof.
  intros Hs Hin Hc Hne. simpl.
  destruct (proj2 (on_join_room_is_Some s roomId userId (srv sys)) Hin)
    as [st' Hj].
  rewrite Hj. simpl. eexists. split; [done|]. simpl.
  pose proof (on_join_room_Some _ _ _ _ _ Hs Hj) as (_ & _ & _ & Hinbox).
  split; [done|].
  unfold on_join_room, addUserToRoom in Hj. rewrite Hin in Hj. simpl in Hj.
  injection Hj as <-. simpl. unfold socket_to_emit, socket_emit, excepted.
  assert (∀ room', c ∈ members (send [s] "all-users"
                     (DList (filter (λ id, id ≠ s)
                               (default [] (rooms (srv sys) !! roomId) ++ [s])))
                     (join s roomId (io (srv sys)))) room'
                   ↔ c ∈ members (io (srv sys)) room') as Hmem.
  { intros room'. rewrite members_send, members_join.
    case_decide; [subst|done]. set_solver. }
  case_decide as Hdec.
  - rewrite inbox_send_once; [|apply NoDup_elements| |done].
    + by rewrite inbox_send_other by (by intros [?|[]%elem_of_nil]%elem_of_cons).
    + apply elem_of_elements. destruct Hdec as [H1 H2].
      apply elem_of_difference. split; [by apply Hmem|].
      rewrite elem_of_union, elem_of_singleton, Hmem. tauto.
  - rewrite app_nil_r, inbox_send_other.
    + by rewrite inbox_send_other by (by intros [?|[]%elem_of_nil]%elem_of_cons).
    + rewrite elem_of_elements, elem_of_difference, elem_of_union, !Hmem. tauto.
Qed.

(** Socket "b" joins room "m", where "a" is; "c" is connected elsewhere. *)
Lemma join_room_announcements_witness :
  ∃ sys sys',
    run (in_meeting ++ [Connection "b"; Connection "c"]) (started 10) = Some sys ∧
    handle (JoinRoom "b" "m" "2") sys = Some (sys', None) ∧
    inbox "b" (io (srv sys')) = [mkPacket "b" "all-users" (DList ["a"%string])] ∧
    inbox "a" (io (srv sys'))
    = inbox "a" (io (srv sys)) ++ [mkPacket "a" "user-joined" (DStr "b")] ∧
    inbox "c" (io (srv sys')) = inbox "c" (io (srv sys)).
Proof.
  set (sys := default (started 10)
                (run (in_meeting ++ [Connection "b"; Connection "c"]) (started 10))).
  destruct (join_room_announcements sys "b" "m" "2" "a")
    as (sys' & H & Hb & Ha); [vm_compute; reflexivity|reflexivity
                              |vm_compute; reflexivity|discriminate|].
  destruct (join_room_announcements sys "b" "m" "2" "c")
    as (sys'' & H' & _ & Hc'); [vm_compute; reflexivity|reflexivity
                                |vm_compute; reflexivity|discriminate|].
  assert (sys'' = sys') as -> by congruence.
  exists sys, sys'. split; [reflexivity|]. split; [exact H|].
  split; [exact Hb|]. split.
  - rewrite Ha. rewrite decide_True; [done|].
    split; [vm_compute; reflexivity|vm_compute; discriminate].
  - rewrite Hc'. rewrite decide_False; [apply app_nil_r|].
    intros [Hm _]. vm_compute in Hm. discriminate.
Defined.

(** X8.  A connected socket of the socket.io room named by [data.roomId],
    other than the sender, is sent a screen-sharing event exactly once,
    unless it has joined the room named by the id of the sender, in which
    case it is sent nothing; the sender is sent nothing, and need not be in
    that room.  When [data] has no [userId] of its own, the event carries
    the id of the sender. *)
Theorem screen_sharing_delivery sys k a (d : gmap string json) room c :
  string_field d "roomId" = Some room →
  c ∈ members (io (srv sys)) room →
  c ∈ connected (io (srv sys)) →
  c ≠ a →
  ∃ sys' out,
    handle (ScreenShare k a d) sys = Some (sys', None) ∧
    inbox c (io (srv sys'))
    = inbox c (io (srv sys)) ++
      (if decide (c ∈ members (io (srv sys)) a) then []
       else [mkPacket c (screen_event k) (DObj out)]) ∧
    inbox a (io (srv sys')) = inbox a (io (srv sys)) ∧
    (∀ f, f ≠ "userId"%string → out !! f = d !! f) ∧
    (d !! "userId"%string = None → out !! "userId"%string = Some (JStr a)).
Proof.
  intros Hroom Hmem Hconn Hne. simpl. unfold on_screen_sharing. rewrite Hroom.
  eexists _, _. split; [done|]. simpl. unfold socket_to_emit, excepted.
  split; [|split; [|split]].
  - case_decide as Hin.
    + rewrite app_nil_r. apply inbox_send_other.
      rewrite elem_of_elements. set_solver.
    + apply inbox_send_once; [apply NoDup_elements| |done].
      apply elem_of_elements. set_solver.
  - apply inbox_send_other. rewrite elem_of_elements. set_solver.
  - intros f Hf. destruct (d !! f) as [v|] eqn:Hv.
    + by apply lookup_union_Some_l.
    + rewrite lookup_union_r by done. by apply lookup_singleton_ne.
  - intros Hnone. rewrite screen_sharing_user_tag. by rewrite Hnone.
Qed.

(** Socket "b", which is in no room, announces screen sharing in room "m". *)
Lemma screen_sharing_delivery_witness :
  ∃ sys sys',
    run (in_meeting ++ [Connection "b"]) (started 10) = Some sys ∧
    handle (ScreenShare Stopped "b" {["roomId" := JStr "m"]}) sys
    = Some (sys', None) ∧
    inbox "a" (io (srv sys'))
    = inbox "a" (io (srv sys)) ++
      [mkPacket "a" "screen-sharing-stopped"
         (DObj {["roomId" := JStr "m"; "userId" := JStr "b"]})] ∧
    inbox "b" (io (srv sys')) = inbox "b" (io (srv sys)).
Proof.
  set (sys := default (started 10)
                (run (in_meeting ++ [Connection "b"]) (started 10))).
  destruct (screen_sharing_delivery sys Stopped "b" {["roomId" := JStr "m"]} "m" "a")
    as (sys' & out & H & Ha & Hb & _ & _);
    [reflexivity|vm_compute; reflexivity|vm_compute; reflexivity|discriminate|].
  exists sys, sys'. split; [reflexivity|]. split; [exact H|]. split; [|exact Hb].
  injection H as <-. vm_compute. reflexivity.
Defined.

(** X9.  In every state the process can reach, a socket id listed in [rooms]
    under a room id belongs to a connected socket that is in the socket.io
    room of that id. *)
Theorem registry_members_are_connected sys room l s :
  reachable sys →
  rooms (srv sys) !! room = Some l →
  s ∈ l →
  s ∈ connected (io (srv sys)) ∧ s ∈ members (io (srv sys)) room.
Proof.
  intros Hreach Hl Hs.
  destruct (reachable_consistent _ Hreach) as (_ & H2 & H3).
  pose proof (H3 _ _ _ Hl Hs) as Hmem. split; [by eapply H2|done].
Qed.

Lemma registry_members_are_connected_witness :
  let sys :=
    mkSystem empty_db
      (default empty_srv
         (on_join_room "a" "m" "1" (on_connection "a" empty_srv))) in
  "a"%string ∈ connected (io (srv sys)) ∧ "a"%string ∈ members (io (srv sys)) "m".
Proof.
  intros sys.
  apply (registry_members_are_connected sys "m" ["a"%string] "a").
  - apply (reachable_step (JoinRoom "a" "m" "1")
             (mkSystem empty_db (on_connection "a" empty_srv)) sys None);
      [|vm_compute; reflexivity|reflexivity].
    apply (reachable_step (Connection "a") initial _ None);
      [apply reachable_start|vm_compute; discriminate|reflexivity].
  - reflexivity.
  - by left.
Defined.

(** X10.  Joining a room and then leaving undoes the join: the array of the
    room is the peer list the socket was given, which is the array as it was
    when the socket was not in it; the arrays of other rooms only lose the
    socket. *)
Theorem join_then_leave_restores_room roomId s (rooms : gmap string (list string))
    rooms1 peers :
  addUserToRoom roomId s rooms = Some (rooms1, peers) →
  removeUserFromRoom s rooms1 !! roomId = Some peers ∧
  (s ∉ default [] (rooms !! roomId) → peers = default [] (rooms !! roomId)) ∧
  (∀ roomId', roomId' ≠ roomId →
     removeUserFromRoom s rooms1 !! roomId' = removeUserFromRoom s rooms !! roomId').
Proof.
  intros (_ & -> & ->)%addUserToRoom_Some. split; [|split].
  - rewrite lookup_removeUserFromRoom, lookup_insert_eq. simpl.
    by rewrite filter_ne_snoc.
  - intros Hs. induction (default [] (rooms !! roomId)) as [|x l IH]; [done|].
    apply not_elem_of_cons in Hs as [Hx Hl].
    rewrite filter_cons_True by done. by rewrite IH.
  - intros roomId' Hne.
    by rewrite !lookup_removeUserFromRoom, lookup_insert_ne.
Qed.

Lemma join_then_leave_restores_room_witness :
  removeUserFromRoom "c" (<["m" := ["a"; "b"; "c"]]> {["n" := ["c"; "a"]]})
    !! "m"%string = Some ["a"; "b"]%string.
Proof.
  apply (join_then_leave_restores_room "m" "c"
           {["m" := ["a"; "b"]; "n" := ["c"; "a"]]}
           (<["m" := ["a"; "b"; "c"]]> {["n" := ["c"; "a"]]}) ["a"; "b"]%string).
  vm_compute. reflexivity.
Defined.

(** * Accounts: registration, login and the token check *)

Module AccountFacts.
Import Accounts AuthRoutes AuthMiddleware Scenario2.

Section strings.
Implicit Types (s a b : string) (c sep : ascii).

Lemma split_nonempty sep s : Js.split sep s ≠ [].
Proof.
  destruct s as [|c s]; simpl; [done|]. case_decide; [done|].
  by destruct (Js.split sep s).
Qed.

Lemma split_without sep s : Js.includes sep s = false → Js.split sep s = [s].
Proof.
  induction s as [|c s IH]; [done|]. simpl.
  intros [Hc Hs]%orb_false_iff. apply bool_decide_eq_false in Hc.
  rewrite decide_False by done. by rewrite IH.
Qed.

Lemma split_at_first sep a b :
  Js.includes sep a = false →
  Js.split sep (a +:+ String sep b) = a :: Js.split sep b.
Proof.
  induction a as [|c a IH]; simpl.
  - intros _. by rewrite decide_True.
  - intros [Hc Ha]%orb_false_iff. apply bool_decide_eq_false in Hc.
    rewrite decide_False by done. by rewrite IH.
Qed.

End strings.

(** X12.  The token [authenticateToken] uses is the text between the first
    and the second space of the [Authorization] header, whatever the first
    word is; a header without a space carries no token. *)
Theorem bearer_is_second_word scheme tok :
  Js.includes " " scheme = false →
  Js.includes " " tok = false →
  bearer (Some (scheme +:+ " " +:+ tok)) = Some tok ∧
  (∀ rest, bearer (Some (scheme +:+ " " +:+ tok +:+ " " +:+ rest)) = Some tok) ∧
  bearer (Some scheme) = (if decide (scheme = EmptyString) then Some EmptyString else None).
Proof.
  intros Hscheme Htok. unfold bearer. split; [|split].
  - rewrite decide_False by (by destruct scheme).
    change (scheme +:+ " " +:+ tok) with (scheme +:+ String " " tok).
    by rewrite split_at_first, split_without.
  - intros rest. rewrite decide_False by (by destruct scheme).
    change (scheme +:+ " " +:+ tok +:+ " " +:+ rest)
      with (scheme +:+ String " " (tok +:+ String " " rest)).
    by rewrite !split_at_first.
  - case_decide; [done|]. by rewrite split_without.
Qed.

Lemma bearer_is_second_word_witness :
  bearer (Some "Bearer abc.def.ghi") = Some "abc.def.ghi"%string ∧
  bearer (Some "Basic abc.def.ghi trailing words") = Some "abc.def.ghi"%string ∧
  bearer (Some "abc.def.ghi") = None.
Proof.
  destruct (bearer_is_second_word "Bearer" "abc.def.ghi" eq_refl eq_refl)
    as (H1 & _ & _).
  destruct (bearer_is_second_word "Basic" "abc.def.ghi" eq_refl eq_refl)
    as (_ & H2 & _).
  destruct (bearer_is_second_word "abc.def.ghi" "" eq_refl eq_refl)
    as (_ & _ & H3).
  split; [exact H1|]. split; [exact (H2 "trailing words"%string)|exact H3].
Defined.

(** X13.  [authenticateToken] calls [next()] exactly when the header
    carries a non-empty token that [jwt.verify] accepts and that names a
    user who exists and is verified; [req.userId] and [req.userEmail] are
    the ones in the token. *)
Theorem authenticateToken_next lib now header db userId userEmail :
  authenticateToken lib now header db = Next userId userEmail ↔
  ∃ token user,
    bearer header = Some token ∧
    token ≠ EmptyString ∧
    jwt_verify lib (JWT_SECRET lib) now token = Some (userId, userEmail) ∧
    user_by_id db userId = Some user ∧
    is_verified user = true.
Proof.
  unfold authenticateToken. split.
  - destruct (bearer header) as [token|]; [|done].
    case_decide; [done|].
    destruct (jwt_verify _ _ _ _) as [[uid em]|] eqn:Hjwt; [|done].
    destruct (user_by_id db uid) as [user|] eqn:Hu; [|by case_decide].
    destruct (is_verified user) eqn:Hv; [|done].
    intros [= <- <-]. by exists token, user.
  - intros (token & user & -> & Hne & -> & -> & ->).
    by rewrite decide_False.
Qed.

Section first_row.
Context {A : Type} (P : A → Prop) `{∀ x, Decision (P x)}.

Lemma first_row_None (l : list A) : head (filter P l) = None ↔ ¬ Exists P l.
Proof.
  induction l as [|x l IH]; [rewrite Exists_nil; simpl; tauto|].
  rewrite filter_cons, Exists_cons. case_decide; simpl; [|tauto].
  split; [done|]. tauto.
Qed.

Lemma first_row_Some (l : list A) x : head (filter P l) = Some x → x ∈ l ∧ P x.
Proof.
  intros Hhd.
  assert (x ∈ filter P l) as Hin by (destruct (filter P l); simplify_eq/=; by left).
  apply list_elem_of_filter in Hin. tauto.
Qed.

Lemma first_row_snoc (l : list A) x :
  ¬ Exists P l → P x → head (filter P (l ++ [x])) = Some x.
Proof.
  intros Hno Hx. apply first_row_None in Hno. rewrite filter_app.
  destruct (filter P l); [|done]. simpl. by rewrite filter_cons_True.
Qed.

Lemma first_row_app (l k : list A) x :
  head (filter P l) = Some x → head (filter P (l ++ k)) = Some x.
Proof. rewrite filter_app. by destruct (filter P l). Qed.

(** A change of rows that keeps [P] moves with the first row. *)
Lemma first_row_fmap (f : A → A) (l : list A) :
  (∀ x, P (f x) ↔ P x) →
  head (filter P (f <$> l)) = f <$> head (filter P l).
Proof.
  intros Hf. induction l as [|x l IH]; [done|].
  rewrite fmap_cons, !filter_cons. destruct (decide (P x)) as [Hx|Hx].
  - by rewrite decide_True by (by apply Hf).
  - by rewrite decide_False by (by rewrite Hf).
Qed.

End first_row.

(** X14.  A verification token works once: after a successful
    [/verify-email] every user with the id of the token is verified, and the
    same token is answered 400 "Invalid verification token" from then on. *)
Theorem verify_email_once now token db db' resp :
  get_verify_email now token db = (db', resp) →
  auth_code resp = 200 →
  (∀ now', get_verify_email now' token db'
           = (db', mkAuthResponse 400 (AuthError "Invalid verification token"))) ∧
  ∃ row, row ∈ verification_tokens db ∧ vt_token row = token ∧
         now <= vt_expires_at row ∧
         (∀ u, u ∈ users db' → id u = vt_user_id row → is_verified u = true) ∧
         email <$> users db' = email <$> users db.
Proof.
  unfold get_verify_email at 1.
  destruct (head (filter _ (verification_tokens db))) as [row|] eqn:Hrow;
    [|by intros [= <- <-]].
  case_decide as Hexp; [by intros [= <- <-]|]. intros [= <- <-] _.
  apply first_row_Some in Hrow as [Hin Htok]. split.
  - intros now'. unfold get_verify_email. simpl.
    assert (head (filter (λ t, vt_token t = token)
                    (filter (λ t, vt_token t ≠ token) (verification_tokens db)))
            = None) as ->; [|done].
    apply first_row_None. rewrite Exists_exists.
    intros (t & [Hne _]%list_elem_of_filter & Heq). done.
  - exists row. split; [done|]. split; [done|]. split; [lia|]. simpl. split.
    + intros u (u0 & -> & Hu0)%list_elem_of_fmap. by case_decide.
    + rewrite <- list_fmap_compose. apply list_fmap_ext. intros _ u _. simpl.
      by case_decide.
Qed.

Lemma verify_email_once_witness :
  let db := mkAccountDb [mkUser 1 "a@x.org" "h" "Ann" false] 1
                        [mkVerificationToken 1 "t1" 100] [] [] in
  ∃ db',
    get_verify_email 50 "t1" db
    = (db', mkAuthResponse 200
              (AuthMessage "Email verified successfully! You can now login.")) ∧
    get_verify_email 60 "t1" db'
    = (db', mkAuthResponse 400 (AuthError "Invalid verification token")).
Proof.
  intros db. eexists. split; [reflexivity|].
  eapply (proj1 (verify_email_once 50 "t1" db _ _ eq_refl eq_refl)).
Defined.

(** X15.  [/login] answers 401 "Invalid credentials" exactly when the email
    is unknown or the password does not match, the same answer in both
    cases and whether or not the account is verified; it answers 200 only
    for a verified user whose password matches, with a token signed for the
    id and email of that user. *)
Theorem login_answers lib now e pw db :
  (post_login lib now e pw db = mkAuthResponse 401 (AuthError "Invalid credentials") ↔
   user_by_email db e = None ∨
   ∃ u, user_by_email db e = Some u ∧ bcrypt_compare lib pw (password u) = false) ∧
  (auth_code (post_login lib now e pw db) = 200 →
   ∃ u secret token,
     user_by_email db e = Some u ∧
     bcrypt_compare lib pw (password u) = true ∧
     is_verified u = true ∧
     JWT_SECRET lib = Some secret ∧
     jwt_sign lib secret now (id u) (email u) = Some token ∧
     post_login lib now e pw db = mkAuthResponse 200 (LoggedIn token (public u))).
Proof.
  unfold post_login. destruct (user_by_email db e) as [u|]; [|split; [|done]].
  2: { split; [by left|done]. }
  destruct (bcrypt_compare lib pw (password u)) eqn:Hpw; simpl.
  - destruct (is_verified u) eqn:Hv; simpl.
    + destruct (JWT_SECRET lib) as [secret|] eqn:Hsec.
      * case_decide.
        -- split; [|done]. split; [done|]. intros [[=]|(? & [= <-] & ?)]. congruence.
        -- destruct (jwt_sign lib secret now (id u) (email u)) as [token|] eqn:Hs.
           ++ split; [|by intros _; exists u, secret, token].
              split; [done|]. intros [[=]|(? & [= <-] & ?)]. congruence.
           ++ split; [|done]. split; [done|].
              intros [[=]|(? & [= <-] & ?)]. congruence.
      * split; [|done]. split; [done|]. intros [[=]|(? & [= <-] & ?)]. congruence.
    + split; [|done]. split; [done|]. intros [[=]|(? & [= <-] & ?)]. congruence.
  - split; [|done]. split; [|done]. intros _. right. by exists u.
Qed.

Section registration.
Context (lib : Lib).
Implicit Types (db : AccountDb) (u : User).

(** What a registration answered with 201 has done. *)
Lemma post_register_201 salt token now smtp_ok e pw n db db1 r :
  post_register lib salt token now smtp_ok e pw n db = (db1, r) →
  auth_code r = 201 →
  let user := mkUser (users_id_seq db + 1) e (bcrypt_hash lib salt pw) n false in
  user_by_email db e = None ∧
  ¬ Exists (λ t, vt_token t = token) (verification_tokens db) ∧
  smtp_ok = true ∧
  db1 = mkAccountDb (users db ++ [user]) (users_id_seq db + 1)
          (verification_tokens db ++
             [mkVerificationToken (users_id_seq db + 1) token (now + 24 * 60 * 60 * 1000)])
          (password_reset_tokens db)
          (sent db ++ [verification_mail lib e token]) ∧
  r = mkAuthResponse 201
        (Registered
           "Registration successful! Please check your email to verify your account."
           (mkPublicUser (users_id_seq db + 1) e n)).
Proof.
  unfold post_register. destruct (user_by_email db e); [by intros [= <- <-]|].
  simpl. case_decide as Hlen; [by intros [= <- <-]|].
  case_decide as Htok; [by intros [= <- <-]|].
  destruct smtp_ok; intros [= <- <-]; [|done]. done.
Qed.

Lemma verify_after_register salt token now smtp_ok e pw n db db1 r t :
  post_register lib salt token now smtp_ok e pw n db = (db1, r) →
  auth_code r = 201 →
  t <= now + 24 * 60 * 60 * 1000 →
  ∃ db2 u,
    get_verify_email t token db1
    = (db2, mkAuthResponse 200
              (AuthMessage "Email verified successfully! You can now login.")) ∧
    user_by_email db2 e
    = Some (mkUser (users_id_seq db + 1) e (bcrypt_hash lib salt pw) n true) ∧
    user_by_id db2 (users_id_seq db + 1) = Some u ∧ is_verified u = true.
Proof.
  intros Hreg Hcode Ht.
  destruct (post_register_201 _ _ _ _ _ _ _ _ _ _ Hreg Hcode)
    as (Hnone & Htok & _ & -> & _).
  set (user := mkUser (users_id_seq db + 1) e (bcrypt_hash lib salt pw) n false).
  unfold get_verify_email. simpl.
  rewrite (first_row_snoc (λ t, vt_token t = token)) by done. simpl.
  rewrite decide_False by lia.
  set (f := λ u, if decide (id u = users_id_seq db + 1)
                 then mkUser (id u) (email u) (password u) (name u) true else u).
  assert (head (filter (λ u, id u = users_id_seq db + 1) (users db ++ [user]))
          ≠ None) as Hid.
  { rewrite first_row_None, Exists_app, Exists_cons. intros Hno. apply Hno.
    right. by left. }
  destruct (head (filter (λ u, id u = users_id_seq db + 1) (users db ++ [user])))
    as [u0|] eqn:Hu0; [|done].
  eexists _, (f u0). split; [done|]. unfold user_by_email, user_by_id. simpl.
  split; [|split].
  - rewrite (first_row_fmap (λ u, email u = e) f)
      by (intros u; unfold f; by case_decide).
    rewrite (first_row_snoc (λ u, email u = e));
      [|exact (proj1 (first_row_None (λ u, email u = e) (users _)) Hnone)|done].
    simpl. unfold f. simpl. by rewrite decide_True.
  - rewrite (first_row_fmap (λ u, id u = users_id_seq db + 1) f)
      by (intros u; unfold f; by case_decide).
    by rewrite Hu0.
  - apply first_row_Some in Hu0 as [_ Hu0]. unfold f. by rewrite decide_True.
Qed.

End registration.

(** X16.  After a registration answered with 201 the account exists but is
    not verified, so the right password is answered 403; the token mailed
    out verifies it up to 24 hours after the registration, and is refused as
    expired, changing nothing, from the next millisecond on. *)
Theorem register_then_verify lib salt token now smtp_ok e pw n db db1 r :
  post_register lib salt token now smtp_ok e pw n db = (db1, r) →
  auth_code r = 201 →
  bcrypt_compare lib pw (bcrypt_hash lib salt pw) = true →
  (∀ t, post_login lib t e pw db1
        = mkAuthResponse 403 (AuthError "Please verify your email before logging in")) ∧
  (∀ t, t <= now + 86400000 →
        ∃ db2, get_verify_email t token db1
               = (db2, mkAuthResponse 200
                         (AuthMessage "Email verified successfully! You can now login.")) ∧
               user_by_email db2 e
               = Some (mkUser (users_id_seq db + 1) e (bcrypt_hash lib salt pw) n true)) ∧
  (∀ t, t > now + 86400000 →
        get_verify_email t token db1
        = (db1, mkAuthResponse 400 (AuthError "Verification token expired"))).
Proof.
  intros Hreg Hcode Hpw. split; [|split].
  - intros t.
    destruct (post_register_201 _ _ _ _ _ _ _ _ _ _ _ Hreg Hcode)
      as (Hnone & _ & _ & -> & _).
    unfold post_login, user_by_email. simpl.
    rewrite (first_row_snoc (λ u, email u = e));
      [|exact (proj1 (first_row_None (λ u, email u = e) (users _)) Hnone)|done].
    simpl. by rewrite Hpw.
  - intros t Ht.
    destruct (verify_after_register lib _ _ _ _ _ _ _ _ _ _ t Hreg Hcode)
      as (db2 & u & H1 & H2 & _); [lia|]. by exists db2.
  - intros t Ht.
    destruct (post_register_201 _ _ _ _ _ _ _ _ _ _ _ Hreg Hcode)
      as (_ & Htok & _ & -> & _).
    unfold get_verify_email. simpl.
    rewrite (first_row_snoc (λ t, vt_token t = token)) by done. simpl.
    by rewrite decide_True by lia.
Qed.

Lemma register_then_verify_witness :
  ∃ db1 db2,
    post_register toy_lib "salt" "t1" 1000 true "a@x.org" "Passw0rd" "Ann"
                  empty_accounts
    = (db1, mkAuthResponse 201
              (Registered
                 "Registration successful! Please check your email to verify your account."
                 (mkPublicUser 1 "a@x.org" "Ann"))) ∧
    link <$> sent db1 = ["https://app/verify-email?token=t1"%string] ∧
    post_login toy_lib 2000 "a@x.org" "Passw0rd" db1
    = mkAuthResponse 403 (AuthError "Please verify your email before logging in") ∧
    get_verify_email 86401000 "t1" db1
    = (db2, mkAuthResponse 200
              (AuthMessage "Email verified successfully! You can now login.")) ∧
    get_verify_email 86401001 "t1" db1
    = (db1, mkAuthResponse 400 (AuthError "Verification token expired")).
Proof.
  destruct (register_then_verify toy_lib "salt" "t1" 1000 true "a@x.org" "Passw0rd"
              "Ann" empty_accounts _ _ eq_refl eq_refl eq_refl)
    as (Hlogin & Hverify & Hexpired).
  destruct (Hverify 86401000) as (db2 & H2 & _); [lia|].
  eexists _, db2. split; [reflexivity|]. split; [reflexivity|].
  split; [exact (Hlogin 2000)|]. split; [exact H2|].
  apply Hexpired. lia.
Defined.

(** X17.  Register, verify, log in, call a route: when [bcrypt.compare]
    accepts the password it hashed and [jwt.verify] accepts the token
    [jwt.sign] returned, the user who registered and verified in time is
    logged in with the right password, and the token of the login gets past
    [authenticateToken] as that user. *)
Theorem registered_user_gets_through lib salt token now smtp_ok e pw n db db1 r
    t1 t2 t3 secret jwt :
  post_register lib salt token now smtp_ok e pw n db = (db1, r) →
  auth_code r = 201 →
  t1 <= now + 86400000 →
  bcrypt_compare lib pw (bcrypt_hash lib salt pw) = true →
  JWT_SECRET lib = Some secret →
  secret ≠ EmptyString →
  jwt_sign lib secret t2 (users_id_seq db + 1) e = Some jwt →
  jwt_verify lib (Some secret) t3 jwt = Some (users_id_seq db + 1, e) →
  Js.includes " " jwt = false →
  jwt ≠ EmptyString →
  ∃ db2,
    get_verify_email t1 token db1
    = (db2, mkAuthResponse 200
              (AuthMessage "Email verified successfully! You can now login.")) ∧
    post_login lib t2 e pw db2
    = mkAuthResponse 200 (LoggedIn jwt (mkPublicUser (users_id_seq db + 1) e n)) ∧
    authenticateToken lib t3 (Some ("Bearer " +:+ jwt)) db2
    = Next (users_id_seq db + 1) e.
Proof.
  intros Hreg Hcode Ht Hpw Hsec Hne Hsign Hverify Hsp Hjwt.
  destruct (verify_after_register lib _ _ _ _ _ _ _ _ _ _ t1 Hreg Hcode)
    as (db2 & u & H1 & H2 & H3 & H4); [lia|].
  exists db2. split; [done|]. split.
  - unfold post_login. rewrite H2. simpl. rewrite Hpw, Hsec. simpl.
    rewrite decide_False by done. by rewrite Hsign.
  - apply authenticateToken_next. exists jwt, u.
    split; [|by rewrite Hsec].
    by apply (bearer_is_second_word "Bearer" jwt).
Qed.

Lemma registered_user_gets_through_witness :
  ∃ db1 db2,
    post_register toy_lib "salt" "t1" 1000 true "a@x.org" "Passw0rd" "Ann"
                  empty_accounts
    = (db1, mkAuthResponse 201
              (Registered
                 "Registration successful! Please check your email to verify your account."
                 (mkPublicUser 1 "a@x.org" "Ann"))) ∧
    get_verify_email 5000 "t1" db1
    = (db2, mkAuthResponse 200
              (AuthMessage "Email verified successfully! You can now login.")) ∧
    post_login toy_lib 6000 "a@x.org" "Passw0rd" db2
    = mkAuthResponse 200 (LoggedIn "jwt" (mkPublicUser 1 "a@x.org" "Ann")) ∧
    authenticateToken toy_lib 7000 (Some "Bearer jwt") db2 = Next 1 "a@x.org".
Proof.
  destruct (registered_user_gets_through toy_lib "salt" "t1" 1000 true "a@x.org"
              "Passw0rd" "Ann" empty_accounts _ _ 5000 6000 7000 "secret" "jwt"
              eq_refl eq_refl)
    as (db2 & H1 & H2 & H3); try reflexivity; try discriminate.
  eexists _, db2. split; [reflexivity|]. split; [exact H1|].
  split; [exact H2|exact H3].
Defined.

(** X18.  A registration that fails after the user row was written, because
    the mail could not be sent or the token exists, is answered 500 but
    leaves the unverified account behind: the same email is refused as
    "Email already registered" from then on.  A registration with a name of
    more than 255 characters is answered 500 as well, but fails before the
    row is written and changes nothing. *)
Theorem failed_registration_keeps_the_user lib salt token now smtp_ok e pw n db :
  user_by_email db e = None →
  ((String.length n ≤ 255)%nat →
   smtp_ok = false ∨ Exists (λ t, vt_token t = token) (verification_tokens db) →
   ∃ db1,
     post_register lib salt token now smtp_ok e pw n db
     = (db1, mkAuthResponse 500 (AuthError "Registration failed")) ∧
     user_by_email db1 e
     = Some (mkUser (users_id_seq db + 1) e (bcrypt_hash lib salt pw) n false) ∧
     ∀ salt' token' now' smtp_ok' pw' n',
       post_register lib salt' token' now' smtp_ok' e pw' n' db1
       = (db1, mkAuthResponse 400 (AuthError "Email already registered"))) ∧
  ((255 < String.length n)%nat →
   post_register lib salt token now smtp_ok e pw n db
   = (db, mkAuthResponse 500 (AuthError "Registration failed"))).
Proof.
  intros Hnone. split.
  - intros Hlen Hfail.
    assert (∀ vts prts ms,
              user_by_email
                (mkAccountDb
                   (users db ++
                      [mkUser (users_id_seq db + 1) e (bcrypt_hash lib salt pw) n false])
                   (users_id_seq db + 1) vts prts ms) e
              = Some (mkUser (users_id_seq db + 1) e (bcrypt_hash lib salt pw) n false))
      as Huser.
    { intros. unfold user_by_email. simpl.
      apply (first_row_snoc (λ u, email u = e)); [|done].
      exact (proj1 (first_row_None (λ u, email u = e) (users db)) Hnone). }
    unfold post_register at 1. rewrite Hnone. simpl.
    rewrite decide_False by lia.
    case_decide as Htok.
    + eexists. split; [done|]. split; [apply Huser|].
      intros. unfold post_register. by rewrite Huser.
    + destruct Hfail as [->|?]; [|done].
      eexists. split; [done|]. split; [apply Huser|].
      intros. unfold post_register. by rewrite Huser.
  - intros Hlen. unfold post_register. rewrite Hnone. simpl.
    by rewrite decide_True.
Qed.

(** The mail to Ann cannot be sent; a name of 256 characters. *)
Lemma failed_registration_keeps_the_user_witness :
  (∃ db1,
     post_register toy_lib "salt" "t1" 1000 false "a@x.org" "Passw0rd" "Ann"
                   empty_accounts
     = (db1, mkAuthResponse 500 (AuthError "Registration failed")) ∧
     post_register toy_lib "salt" "t2" 2000 true "a@x.org" "Passw0rd" "Ann" db1
     = (db1, mkAuthResponse 400 (AuthError "Email already registered"))) ∧
  post_register toy_lib "salt" "t1" 1000 true "a@x.org" "Passw0rd" long_name
                empty_accounts
  = (empty_accounts, mkAuthResponse 500 (AuthError "Registration failed")).
Proof.
  split.
  - destruct (failed_registration_keeps_the_user toy_lib "salt" "t1" 1000 false
                "a@x.org" "Passw0rd" "Ann" empty_accounts eq_refl)
      as [H _].
    destruct H as (db1 & H1 & _ & H2); [simpl; lia|by left|].
    exists db1. split; [exact H1|]. apply H2.
  - apply (failed_registration_keeps_the_user toy_lib "salt" "t1" 1000 true
             "a@x.org" "Passw0rd" long_name empty_accounts eq_refl).
    vm_compute. lia.
Defined.

Section constraints.
Context (lib : Lib).
Implicit Types (db : AccountDb) (u : User).

Lemma constraints_fmap db (f : User → User) seq vts prts ms :
  (∀ u, id (f u) = id u ∧ email (f u) = email u) →
  seq = users_id_seq db →
  constraints db →
  constraints (mkAccountDb (f <$> users db) seq vts prts ms).
Proof.
  intros Hf -> (He & Hi & Hs). unfold constraints. simpl.
  rewrite <- !list_fmap_compose.
  rewrite (list_fmap_ext (email ∘ f) email (users db))
    by (intros ? u ?; simpl; apply Hf).
  rewrite (list_fmap_ext (id ∘ f) id (users db))
    by (intros ? u ?; simpl; apply Hf).
  split; [done|]. split; [done|].
  apply Forall_fmap. eapply Forall_impl; [exact Hs|].
  intros u Hu. simpl. by rewrite (proj1 (Hf u)).
Qed.

Lemma constraints_register db e h n vts prts ms :
  user_by_email db e = None →
  constraints db →
  constraints (mkAccountDb (users db ++ [mkUser (users_id_seq db + 1) e h n false])
                           (users_id_seq db + 1) vts prts ms).
Proof.
  intros Hnone (He & Hi & Hs). unfold constraints. simpl.
  rewrite !fmap_app. simpl. split; [|split].
  - apply NoDup_app. split; [done|]. split; [|apply NoDup_singleton].
    intros x Hx [->|[]%elem_of_nil]%elem_of_cons.
    apply list_elem_of_fmap in Hx as (u & Hu & Hin).
    apply (proj1 (first_row_None (λ u, email u = e) (users db)) Hnone).
    apply Exists_exists. by exists u.
  - apply NoDup_app. split; [done|]. split; [|apply NoDup_singleton].
    intros x Hx [->|[]%elem_of_nil]%elem_of_cons.
    apply list_elem_of_fmap in Hx as (u & Hu & Hin).
    rewrite Forall_forall in Hs. specialize (Hs u Hin). lia.
  - apply Forall_app. split.
    + eapply Forall_impl; [exact Hs|]. intros u Hu. simpl in *. lia.
    + apply Forall_singleton. simpl. lia.
Qed.

End constraints.

(** X19.  The account routes keep what the schema promises about [users]:
    no two rows with the same email or the same id, and no id beyond the
    sequence. *)
Theorem account_routes_keep_constraints lib db :
  constraints db →
  (∀ salt token now smtp_ok e pw n,
     constraints (post_register lib salt token now smtp_ok e pw n db).1) ∧
  (∀ now token, constraints (get_verify_email now token db).1) ∧
  (∀ token now smtp_ok e,
     constraints (post_forgot_password lib token now smtp_ok e db).1) ∧
  (∀ salt now token pw,
     constraints (post_reset_password lib salt now token pw db).1).
Proof.
  intros Hc. split; [|split; [|split]].
  - intros. unfold post_register.
    destruct (user_by_email db e) eqn:Hnone; [done|]. simpl.
    case_decide; simpl; [done|].
    case_decide; simpl; [by apply constraints_register|].
    destruct smtp_ok; simpl; by apply constraints_register.
  - intros. unfold get_verify_email.
    destruct (head _) as [row|]; [|done]. case_decide; simpl; [done|].
    apply constraints_fmap; [|done|done]. intros u. by case_decide.
  - intros. unfold post_forgot_password.
    destruct (user_by_email db e); [|done]. case_decide; simpl; [done|].
    by destruct smtp_ok.
  - intros. unfold post_reset_password.
    destruct (head _) as [row|]; [|done]. destruct (rt_used row); [done|].
    case_decide; simpl; [done|].
    apply constraints_fmap; [|done|done]. intros u. by case_decide.
Qed.

Lemma account_routes_keep_constraints_witness :
  constraints (post_register toy_lib "s" "t2" 10 true "b@x.org" "Passw0rd" "Bob"
                 (post_register toy_lib "s" "t1" 5 false "a@x.org" "Passw0rd" "Ann"
                    empty_accounts).1).1.
Proof.
  apply account_routes_keep_constraints.
  apply account_routes_keep_constraints.
  repeat split; simpl; constructor.
Defined.

(** X20.  A reset token works once: a successful [/reset-password] stores
    the new hash for the users with the id of the token, leaves the other
    users as they were, and the same token is answered 400 "Token already
    used" from then on. *)
Theorem reset_password_once lib salt now token pw db db' resp :
  post_reset_password lib salt now token pw db = (db', resp) →
  auth_code resp = 200 →
  (∀ salt' now' pw',
     post_reset_password lib salt' now' token pw' db'
     = (db', mkAuthResponse 400 (AuthError "Token already used"))) ∧
  ∃ row, row ∈ password_reset_tokens db ∧ rt_token row = token ∧
         rt_used row = false ∧ now <= rt_expires_at row ∧
         (∀ u, u ∈ users db' → id u = rt_user_id row →
               password u = bcrypt_hash lib salt pw) ∧
         (∀ u, u ∈ users db → id u ≠ rt_user_id row → u ∈ users db').
Proof.
  unfold post_reset_password at 1.
  destruct (head (filter _ (password_reset_tokens db))) as [row|] eqn:Hrow;
    [|by intros [= <- <-]].
  destruct (rt_used row) eqn:Hused; [by intros [= <- <-]|].
  case_decide as Hexp; [by intros [= <- <-]|]. intros [= <- <-] _. split.
  - intros. unfold post_reset_password. simpl.
    rewrite (first_row_fmap (λ t, rt_token t = token))
      by (intros t; by case_decide).
    rewrite Hrow. simpl. apply first_row_Some in Hrow as [_ Htok].
    by rewrite decide_True.
  - apply first_row_Some in Hrow as [Hin Htok].
    exists row. split; [done|]. split; [done|]. split; [done|]. split; [lia|].
    simpl. split.
    + intros u (u0 & -> & Hu0)%list_elem_of_fmap. by case_decide.
    + intros u Hu Hne. apply list_elem_of_fmap. exists u.
      by rewrite decide_False.
Qed.

Lemma reset_password_once_witness :
  let db := mkAccountDb [mkUser 1 "a@x.org" "old" "Ann" true;
                         mkUser 2 "b@x.org" "pw2" "Bob" true] 2 []
                        [mkResetToken 1 "r1" 100 false] [] in
  ∃ db',
    post_reset_password toy_lib "s" 50 "r1" "NewPassw0rd" db
    = (db', mkAuthResponse 200
              (AuthMessage "Password reset successful! You can now login.")) ∧
    password <$> users db' = ["NewPassw0rd"; "pw2"]%string ∧
    post_reset_password toy_lib "s" 60 "r1" "Another1" db'
    = (db', mkAuthResponse 400 (AuthError "Token already used")).
Proof.
  intros db. eexists. split; [reflexivity|]. split; [reflexivity|].
  apply (proj1 (reset_password_once toy_lib "s" 50 "r1" "NewPassw0rd" db _ _
                  eq_refl eq_refl)).
Defined.

(** X21.  [/forgot-password] gives the same answer for an unknown email,
    where it changes nothing, as for a known one, where it stores a token
    and mails a link to it; that token resets the password of the account
    up to one hour later and is refused as expired after that. *)
Theorem forgot_then_reset lib token now e db :
  ¬ Exists (λ t, rt_token t = token) (password_reset_tokens db) →
  (user_by_email db e = None →
   post_forgot_password lib token now true e db
   = (db, mkAuthResponse 200
            (AuthMessage "If the email exists, a reset link has been sent"))) ∧
  (∀ u, user_by_email db e = Some u →
     ∃ db1,
       post_forgot_password lib token now true e db
       = (db1, mkAuthResponse 200
                 (AuthMessage "If the email exists, a reset link has been sent")) ∧
       sent db1 = sent db ++ [reset_mail lib e token] ∧
       (∀ salt t pw, t <= now + 3600000 →
          ∃ db2,
            post_reset_password lib salt t token pw db1
            = (db2, mkAuthResponse 200
                      (AuthMessage "Password reset successful! You can now login.")) ∧
            password <$> user_by_email db2 e = Some (bcrypt_hash lib salt pw)) ∧
       (∀ salt t pw, t > now + 3600000 →
          post_reset_password lib salt t token pw db1
          = (db1, mkAuthResponse 400 (AuthError "Reset token expired")))).
Proof.
  intros Hfresh. split.
  - intros Hnone. unfold post_forgot_password. by rewrite Hnone.
  - intros u Hu. unfold post_forgot_password. rewrite Hu.
    rewrite decide_False by done. simpl. eexists. split; [done|]. simpl.
    split; [done|].
    assert (∀ (k : list ResetToken), 
              head (filter (λ t, rt_token t = token)
                      (password_reset_tokens db ++
                         [mkResetToken (id u) token (now + 60 * 60 * 1000) false]))
              = Some (mkResetToken (id u) token (now + 60 * 60 * 1000) false))
      as Hrow by (intros _; by apply first_row_snoc).
    split.
    + intros salt t pw Ht. unfold post_reset_password. simpl.
      rewrite (Hrow []). simpl. rewrite decide_False by lia.
      eexists. split; [done|]. unfold user_by_email. simpl.
      rewrite (first_row_fmap (λ u, email u = e))
        by (intros u'; by case_decide).
      fold (user_by_email db e). rewrite Hu. simpl. by rewrite decide_True.
    + intros salt t pw Ht. unfold post_reset_password. simpl.
      rewrite (Hrow []). simpl. by rewrite decide_True by lia.
Qed.

Lemma forgot_then_reset_witness :
  let db := mkAccountDb [mkUser 1 "a@x.org" "old" "Ann" true] 1 [] [] [] in
  post_forgot_password toy_lib "r1" 1000 true "nobody@x.org" db
  = (db, mkAuthResponse 200
           (AuthMessage "If the email exists, a reset link has been sent")) ∧
  ∃ db1,
    post_forgot_password toy_lib "r1" 1000 true "a@x.org" db
    = (db1, mkAuthResponse 200
              (AuthMessage "If the email exists, a reset link has been sent")) ∧
    link <$> sent db1 = ["https://app/reset-password?token=r1"%string] ∧
    post_reset_password toy_lib "s" 3601001 "r1" "NewPassw0rd" db1
    = (db1, mkAuthResponse 400 (AuthError "Reset token expired")).
Proof.
  intros db.
  destruct (forgot_then_reset toy_lib "r1" 1000 "a@x.org" db) as [_ H].
  { apply Forall_Exists_neg, Forall_nil_2. }
  destruct (forgot_then_reset toy_lib "r1" 1000 "nobody@x.org" db) as [H0 _].
  { apply Forall_Exists_neg, Forall_nil_2. }
  split; [by apply H0|].
  destruct (H (mkUser 1 "a@x.org" "old" "Ann" true) eq_refl)
    as (db1 & H1 & H2 & _ & H4).
  exists db1. split; [exact H1|]. split; [by rewrite H2|].
  apply H4. lia.
Defined.

End AccountFacts.

(** * The authenticated socket listeners *)

Module HubFacts.
Import Accounts AuthRoutes AuthMiddleware SocketHandlersAuth Scenario2.
Import AccountFacts.

Section upsert.
Implicit Types (rows : list Participant) (p : Participant).

Lemma upsert_keys now meetingId uid s rows :
  NoDup ((λ p, (meeting_id p, user_id p)) <$> rows) →
  NoDup ((λ p, (meeting_id p, user_id p))
           <$> upsert_participant now meetingId uid s rows).
Proof.
  intros Hnd. unfold upsert_participant. case_decide as Hex.
  - rewrite <- list_fmap_compose.
    rewrite (list_fmap_ext _ (λ p, (meeting_id p, user_id p)) rows); [done|].
    intros _ p _. simpl. by case_decide.
  - rewrite fmap_app. apply NoDup_app. split; [done|]. split.
    + intros k Hk [->|[]%elem_of_nil]%elem_of_cons. apply Hex.
      apply list_elem_of_fmap in Hk as (p & [= Hm Hu] & Hp).
      apply Exists_exists. exists p. by split.
    + apply NoDup_singleton.
Qed.

Lemma upsert_record now meetingId uid s rows ms :
  record_of (mkDb ms (upsert_participant now meetingId uid s rows)) meetingId uid
  = Some (mkParticipant meetingId uid (Some s) now None).
Proof.
  unfold record_of, upsert_participant. simpl. case_decide as Hex.
  - rewrite (first_row_fmap (is_record meetingId uid))
      by (intros p; by case_decide).
    destruct (head (filter (is_record meetingId uid) rows)) as [p|] eqn:Hp.
    + apply first_row_Some in Hp as [_ Hp]. simpl. rewrite decide_True by done.
      by destruct Hp as [-> ->].
    + by apply first_row_None in Hp.
  - by apply first_row_snoc.
Qed.

Lemma upsert_other_record now meetingId uid s rows ms meetingId' uid' :
  (meetingId', uid') ≠ (meetingId, uid) →
  record_of (mkDb ms (upsert_participant now meetingId uid s rows)) meetingId' uid'
  = record_of (mkDb ms rows) meetingId' uid'.
Proof.
  intros Hne. unfold record_of, upsert_participant. simpl. case_decide as Hex.
  - rewrite (first_row_fmap (is_record meetingId' uid'))
      by (intros p; by case_decide).
    destruct (head (filter (is_record meetingId' uid') rows)) as [p|] eqn:Hp;
      [|done].
    apply first_row_Some in Hp as [_ [Hp1 Hp2]]. simpl.
    rewrite decide_False; [done|]. intros [? ?]. apply Hne. congruence.
  - rewrite filter_app, filter_cons_False, filter_nil, app_nil_r; [done|].
    intros [? ?]. apply Hne. simpl in *. congruence.
Qed.

Lemma upsert_live_count now meetingId uid s rows :
  NoDup ((λ p, (meeting_id p, user_id p)) <$> rows) →
  (length (filter (live_in meetingId) (upsert_participant now meetingId uid s rows))
   ≤ S (length (filter (live_in meetingId) rows)))%nat.
Proof.
  intros Hnd. unfold upsert_participant. case_decide as Hex.
  - clear Hex. induction rows as [|p rows IH]; [simpl; lia|].
    rewrite fmap_cons in Hnd. apply NoDup_cons in Hnd as [Hp Hnd].
    rewrite fmap_cons, !filter_cons. destruct (decide (is_record meetingId uid p))
      as [Hrec|Hrec].
    + rewrite decide_True by (destruct Hrec; by split).
      assert (((λ p, if decide (is_record meetingId uid p)
                     then mkParticipant (meeting_id p) (user_id p) (Some s) now None
                     else p) <$> rows) = rows) as ->.
      { clear IH Hnd. induction rows as [|q rows IH]; [done|].
        rewrite fmap_cons in Hp. apply not_elem_of_cons in Hp as [Hq Hp].
        rewrite fmap_cons, decide_False.
        - f_equal. by apply IH.
        - intros [? ?]. apply Hq. destruct Hrec. congruence. }
      case_decide; simpl; lia.
    + specialize (IH Hnd). case_decide; simpl; lia.
  - rewrite filter_app, length_app. rewrite filter_cons_True by done. simpl. lia.
Qed.

End upsert.

(** What [join-room] does by case. *)
Lemma on_join_room_auth_cases now s roomId hub sock :
  hub_sockets hub !! s = Some sock →
  match meetings (hub_db hub) !! roomId with
  | None => on_join_room_auth now s roomId hub = emit_error s "Meeting not found" hub
  | Some m =>
      if decide (status m = "ended"%string) then
        on_join_room_auth now s roomId hub = emit_error s "Meeting has ended" hub
      else if decide (current_participants (hub_db hub) roomId >= max_participants m) then
        on_join_room_auth now s roomId hub = emit_error s "Meeting is full" hub
      else if decide (record_of (hub_db hub) roomId (userId sock) = None
                      ∧ host_id m ≠ userId sock) then
        on_join_room_auth now s roomId hub
        = emit_error s "Not authorized to join this meeting" hub
      else
        let rows := upsert_participant now roomId (userId sock) s
                      (meeting_participants (hub_db hub)) in
        on_join_room_auth now s roomId hub
        = mkHub (socket_to_emit s roomId "user-joined" (DStr s)
                   (socket_emit s "all-users" (DList (other_users roomId s rows))
                      (join s roomId (hub_io hub))))
                (<[s := mkSocketWithAuth (userId sock) (userEmail sock) (Some roomId)]>
                   (hub_sockets hub))
                (mkDb (meetings (hub_db hub)) rows)
  end.
Proof.
  intros Hs. unfold on_join_room_auth. rewrite Hs.
  destruct (meetings (hub_db hub) !! roomId) as [m|]; [|done].
  destruct (decide (status m = "ended"%string)); [done|].
  destruct (decide (_ >= _)); [done|].
  by destruct (decide (_ ∧ _)).
Qed.

(** C2.  For a [join-room] of an authenticated socket for a meeting that
    exists, has not ended and is not full, the socket is let in exactly when
    its user is the host of the meeting or has a participant row for it.
    A socket that is let in is sent "all-users", is in the socket.io room
    and has a live row; one that is not is sent the error "Not authorized
    to join this meeting" and no row is created: the database is as it
    was. *)
Theorem join_room_admits_host_or_participant now s roomId hub sock m :
  hub_sockets hub !! s = Some sock →
  s ∈ connected (hub_io hub) →
  meetings (hub_db hub) !! roomId = Some m →
  status m ≠ "ended"%string →
  current_participants (hub_db hub) roomId < max_participants m →
  let hub' := on_join_room_auth now s roomId hub in
  let authorized :=
    host_id m = userId sock ∨
    is_Some (record_of (hub_db hub) roomId (userId sock)) in
  ((∃ others,
      inbox s (hub_io hub')
      = inbox s (hub_io hub) ++ [mkPacket s "all-users" (DList others)])
   ↔ authorized) ∧
  (authorized →
   s ∈ members (hub_io hub') roomId ∧
   meetingId <$> hub_sockets hub' !! s = Some (Some roomId) ∧
   record_of (hub_db hub') roomId (userId sock)
   = Some (mkParticipant roomId (userId sock) (Some s) now None)) ∧
  (¬ authorized →
   hub' = emit_error s "Not authorized to join this meeting" hub ∧
   inbox s (hub_io hub')
   = inbox s (hub_io hub) ++
     [mkPacket s "error" (message "Not authorized to join this meeting")] ∧
   hub_db hub' = hub_db hub ∧
   record_of (hub_db hub') roomId (userId sock) = None).
Proof.
  intros Hs Hconn Hm Hst Hlt hub' authorized. unfold hub', authorized.
  pose proof (on_join_room_auth_cases now s roomId hub sock Hs) as H.
  rewrite Hm in H. destruct (decide (status m = "ended"%string)); [done|].
  destruct (decide (_ >= _)); [lia|].
  destruct (decide (_ ∧ _)) as [[Hnone Hhost]|Hyes]; rewrite H; clear H.
  - assert (¬ (host_id m = userId sock ∨
               is_Some (record_of (hub_db hub) roomId (userId sock)))) as Hno.
    { intros [?|[p Hp]]; congruence. }
    assert (inbox s (hub_io (emit_error s "Not authorized to join this meeting" hub))
            = inbox s (hub_io hub) ++
              [mkPacket s "error" (message "Not authorized to join this meeting")])
      as Hinbox by (by apply inbox_socket_emit).
    split; [|split; [tauto|done]].
    split; [|tauto]. intros [others Hothers]. rewrite Hinbox in Hothers.
    apply app_inv_head in Hothers. discriminate.
  - assert (host_id m = userId sock ∨
            is_Some (record_of (hub_db hub) roomId (userId sock))) as Hauth.
    { destruct (record_of (hub_db hub) roomId (userId sock)) eqn:Hp; [by right; eexists|].
      left. destruct (decide (host_id m = userId sock)); [done|]. tauto. }
    simpl. split; [|split; [|tauto]].
    + split; [done|]. intros _. eexists.
      rewrite inbox_socket_to_emit, inbox_socket_emit by done. done.
    + intros _. split; [|split].
      * unfold socket_to_emit, socket_emit. rewrite !members_send, members_join.
        rewrite decide_True by done. set_solver.
      * by rewrite lookup_insert_eq.
      * apply upsert_record.
Qed.

(** The host on socket "a" and the guest on socket "b", who has a row, are
    let in; the user on socket "c" is neither and is refused. *)
Lemma join_room_admits_host_or_participant_witness :
  let hub := three_sockets (db_with_guest 10) in
  record_of (hub_db (on_join_room_auth 5 "a" "m" hub)) "m" 1
  = Some (mkParticipant "m" 1 (Some "a") 5 None) ∧
  record_of (hub_db (on_join_room_auth 5 "b" "m" hub)) "m" 2
  = Some (mkParticipant "m" 2 (Some "b") 5 None) ∧
  on_join_room_auth 5 "c" "m" hub
  = emit_error "c" "Not authorized to join this meeting" hub ∧
  record_of (hub_db (on_join_room_auth 5 "c" "m" hub)) "m" 3 = None.
Proof.
  intros hub.
  destruct (join_room_admits_host_or_participant 5 "a" "m" hub
              (mkSocketWithAuth 1 "a@x.org" None) (Scenario.meeting_of_1 10))
    as (_ & Ha & _);
    [reflexivity|vm_compute; reflexivity|reflexivity|discriminate|reflexivity|].
  destruct (join_room_admits_host_or_participant 5 "b" "m" hub
              (mkSocketWithAuth 2 "b@x.org" None) (Scenario.meeting_of_1 10))
    as (_ & Hb & _);
    [reflexivity|vm_compute; reflexivity|reflexivity|discriminate|reflexivity|].
  destruct (join_room_admits_host_or_participant 5 "c" "m" hub
              (mkSocketWithAuth 3 "c@x.org" None) (Scenario.meeting_of_1 10))
    as (_ & _ & Hc);
    [reflexivity|vm_compute; reflexivity|reflexivity|discriminate|reflexivity|].
  split; [apply Ha; by left|]. split; [apply Hb; right; by eexists|].
  assert (¬ (host_id (Scenario.meeting_of_1 10) = 3 ∨
             is_Some (record_of (hub_db hub) "m" 3))) as Hno.
  { intros [?|[p Hp]]; discriminate. }
  destruct (Hc Hno) as (H1 & _ & _ & H2). split; [exact H1|exact H2].
Defined.

(** C6.  On every [join-room] that goes through, the participant row of the
    (meeting, user) pair is upserted: when there is none, a row is added,
    and when there is one, it is updated in place; either way the row is
    live afterwards, [left_at] is null, and it carries the id of the socket
    that joined and the time of the join, whatever [left_at] and
    [socket_id] it had.  The rows of every other pair are as before. *)
Theorem join_room_upserts_participant now s roomId hub sock m :
  hub_sockets hub !! s = Some sock →
  meetings (hub_db hub) !! roomId = Some m →
  status m ≠ "ended"%string →
  current_participants (hub_db hub) roomId < max_participants m →
  host_id m = userId sock ∨
  is_Some (record_of (hub_db hub) roomId (userId sock)) →
  let uid := userId sock in
  let rows := meeting_participants (hub_db hub) in
  let db' := hub_db (on_join_room_auth now s roomId hub) in
  let row := mkParticipant roomId uid (Some s) now None in
  record_of db' roomId uid = Some row ∧
  live_in roomId row ∧
  (record_of (hub_db hub) roomId uid = None →
   meeting_participants db' = rows ++ [row]) ∧
  (∀ p, record_of (hub_db hub) roomId uid = Some p →
        meeting_participants db'
        = (λ q, if decide (is_record roomId uid q) then row else q) <$> rows ∧
        length (meeting_participants db') = length rows) ∧
  (∀ meetingId' uid',
     (meetingId', uid') ≠ (roomId, uid) →
     record_of db' meetingId' uid' = record_of (hub_db hub) meetingId' uid') ∧
  meetings db' = meetings (hub_db hub).
Proof.
  intros Hs Hm Hst Hlt Hauth uid rows db' row. unfold db', row, rows, uid.
  pose proof (on_join_room_auth_cases now s roomId hub sock Hs) as H.
  rewrite Hm in H. destruct (decide (status m = "ended"%string)); [done|].
  destruct (decide (_ >= _)); [lia|].
  destruct (decide (_ ∧ _)) as [[Hnone Hhost]|_].
  { destruct Hauth as [?|[p Hp]]; congruence. }
  rewrite H. clear H. simpl.
  split; [apply upsert_record|]. split; [done|].
  split; [|split; [|split; [|done]]].
  - intros Hnone. unfold upsert_participant.
    rewrite decide_False; [done|]. by apply record_of_None.
  - intros p Hp. unfold upsert_participant.
    rewrite decide_True.
    + split; [|by rewrite length_fmap].
      apply list_fmap_ext. intros _ q _. case_decide as Hq; [|done].
      by destruct Hq as [-> ->].
    + apply record_of_Some in Hp as [Hin Hrec]. apply Exists_exists. by exists p.
  - intros meetingId' uid' Hne.
    rewrite (upsert_other_record now roomId (userId sock) s _ _ meetingId' uid' Hne).
    by destruct (hub_db hub).
Qed.

(** User 2 joined "m" and was kicked at time 5; socket "b" of user 2 sends
    [join-room] at time 9. *)
Lemma join_room_upserts_participant_witness :
  let hub := three_sockets Scenario.db_after_kick in
  record_of (hub_db hub) "m" 2 = Some (mkParticipant "m" 2 None 1 (Some 5)) ∧
  record_of (hub_db (on_join_room_auth 9 "b" "m" hub)) "m" 2
  = Some (mkParticipant "m" 2 (Some "b") 9 None) ∧
  meeting_participants (hub_db (on_join_room_auth 9 "b" "m" hub))
  = [mkParticipant "m" 1 None 0 None; mkParticipant "m" 2 (Some "b") 9 None].
Proof.
  intros hub. split; [reflexivity|].
  destruct (join_room_upserts_participant 9 "b" "m" hub
              (mkSocketWithAuth 2 "b@x.org" None) (Scenario.meeting_of_1 10))
    as (Hrow & _ & _ & Hrows & _);
    [reflexivity|reflexivity|discriminate|reflexivity|right; by eexists|].
  split; [exact Hrow|].
  destruct (Hrows (mkParticipant "m" 2 None 1 (Some 5)) eq_refl) as [-> _].
  reflexivity.
Defined.

(** X22.  For a meeting that exists, has not ended and is not full,
    [join-room] lets a socket in exactly when its user is the host or has a
    participant row.  A socket that is refused is sent one "error" and
    nothing else changes; for one that is let in, the row of its user is
    live, stamped with the time and the id of the socket, the socket is in
    the socket.io room, and the live count is within [max_participants]. *)
Theorem join_room_authorization now s roomId hub sock m :
  hub_sockets hub !! s = Some sock →
  s ∈ connected (hub_io hub) →
  meetings (hub_db hub) !! roomId = Some m →
  status m ≠ "ended"%string →
  current_participants (hub_db hub) roomId < max_participants m →
  NoDup ((λ p, (meeting_id p, user_id p)) <$> meeting_participants (hub_db hub)) →
  let hub' := on_join_room_auth now s roomId hub in
  (record_of (hub_db hub) roomId (userId sock) = None ∧ host_id m ≠ userId sock →
   hub' = emit_error s "Not authorized to join this meeting" hub ∧
   inbox s (hub_io hub')
   = inbox s (hub_io hub) ++
     [mkPacket s "error" (message "Not authorized to join this meeting")]) ∧
  (is_Some (record_of (hub_db hub) roomId (userId sock)) ∨ host_id m = userId sock →
   record_of (hub_db hub') roomId (userId sock)
   = Some (mkParticipant roomId (userId sock) (Some s) now None) ∧
   s ∈ members (hub_io hub') roomId ∧
   meetingId <$> hub_sockets hub' !! s = Some (Some roomId) ∧
   meetings (hub_db hub') = meetings (hub_db hub) ∧
   current_participants (hub_db hub') roomId <= max_participants m).
Proof.
  intros Hs Hconn Hm Hst Hlt Hnd hub'. unfold hub'.
  pose proof (on_join_room_auth_cases now s roomId hub sock Hs) as H.
  rewrite Hm in H. destruct (decide (status m = "ended"%string)); [done|].
  destruct (decide (_ >= _)); [lia|].
  destruct (decide (_ ∧ _)) as [Hno|Hyes]; rewrite H; clear H.
  - split.
    + intros _. split; [done|]. unfold emit_error. simpl.
      by apply inbox_socket_emit.
    + intros [[p Hp]|Hh]; destruct Hno; congruence.
  - split; [tauto|]. intros _. simpl. split; [apply upsert_record|].
    split; [|split; [|split; [done|]]].
    + unfold members. simpl. rewrite lookup_insert_eq. simpl. set_solver.
    + by rewrite lookup_insert_eq.
    + unfold current_participants in *. simpl.
      pose proof (upsert_live_count now roomId (userId sock) s _ Hnd). lia.
Qed.

(** The host and a guest with a row are let in, a stranger is not. *)
Lemma join_room_authorization_witness :
  let hub := three_sockets (db_with_guest 10) in
  on_join_room_auth 5 "c" "m" hub
  = emit_error "c" "Not authorized to join this meeting" hub ∧
  record_of (hub_db (on_join_room_auth 5 "a" "m" hub)) "m" 1
  = Some (mkParticipant "m" 1 (Some "a") 5 None) ∧
  record_of (hub_db (on_join_room_auth 5 "b" "m" hub)) "m" 2
  = Some (mkParticipant "m" 2 (Some "b") 5 None).
Proof.
  intros hub.
  assert (NoDup ((λ p, (meeting_id p, user_id p))
                   <$> meeting_participants (hub_db hub))) as Hnd
    by (apply NoDup_singleton).
  destruct (join_room_authorization 5 "c" "m" hub (mkSocketWithAuth 3 "c@x.org" None)
              (Scenario.meeting_of_1 10)) as [Hc _];
    [reflexivity|vm_compute; reflexivity|reflexivity|discriminate
    |reflexivity|exact Hnd|].
  destruct (join_room_authorization 5 "a" "m" hub (mkSocketWithAuth 1 "a@x.org" None)
              (Scenario.meeting_of_1 10)) as [_ Ha];
    [reflexivity|vm_compute; reflexivity|reflexivity|discriminate
    |reflexivity|exact Hnd|].
  destruct (join_room_authorization 5 "b" "m" hub (mkSocketWithAuth 2 "b@x.org" None)
              (Scenario.meeting_of_1 10)) as [_ Hb];
    [reflexivity|vm_compute; reflexivity|reflexivity|discriminate
    |reflexivity|exact Hnd|].
  split; [apply Hc; split; [reflexivity|discriminate]|].
  split; [apply Ha; by right|apply Hb; left; by eexists].
Defined.

Lemma live_count_fresh_insert now meetingId uid (db : Db) :
  record_of db meetingId uid = None →
  current_participants
    (mkDb (meetings db)
          (insert_participant now meetingId uid (meeting_participants db))) meetingId
  = current_participants db meetingId + 1.
Proof.
  intros Hnone. rewrite (insert_participant_fresh _ _ _ _ Hnone).
  unfold current_participants. simpl.
  rewrite filter_app, length_app, filter_cons_True by done. simpl. lia.
Qed.

(** X23.  [POST /join] is what entitles a user to [join-room], and it takes
    a place: after a join request answered with 200, the [join-room] of a
    socket of that user goes through when the live count, the new row
    included, is still below [max_participants], and is refused with
    "Meeting is full" otherwise. *)
Theorem http_join_then_join_room now uid mid db db' r m io socks s sock now' :
  post_join now uid mid db = (db', r) →
  code r = 200 →
  meetings db !! mid = Some m →
  socks !! s = Some sock →
  userId sock = uid →
  let hub := mkHub io socks db' in
  (current_participants db' mid >= max_participants m →
   on_join_room_auth now' s mid hub = emit_error s "Meeting is full" hub) ∧
  (current_participants db' mid < max_participants m →
   record_of (hub_db (on_join_room_auth now' s mid hub)) mid uid
   = Some (mkParticipant mid uid (Some s) now' None)) ∧
  (record_of db mid uid = None →
   current_participants db mid = max_participants m - 1 →
   current_participants db' mid >= max_participants m).
Proof.
  intros Hj Hcode Hm Hs Hu hub.
  destruct (post_join_200 _ _ _ _ _ _ Hj Hcode) as (m' & Hm' & Hst & Hlt & -> & _).
  assert (m' = m) as -> by congruence.
  pose proof (on_join_room_auth_cases now' s mid hub sock Hs) as H.
  subst hub. simpl in *. rewrite Hm in H.
  destruct (decide (status m = "ended"%string)); [done|].
  set (db' := mkDb (meetings db)
                (insert_participant now mid uid (meeting_participants db))) in *.
  assert (is_Some (record_of db' mid (userId sock))) as [p Hp].
  { rewrite Hu. unfold db'.
    destruct (record_of db mid uid) as [p|] eqn:Hp.
    - rewrite (insert_participant_conflict _ _ _ _ _ Hp). exists p. by destruct db.
    - rewrite (insert_participant_fresh _ _ _ _ Hp). eexists.
      apply record_of_snoc_fresh; [by apply record_of_None|done]. }
  split; [|split].
  - intros Hfull. by rewrite decide_True in H by done.
  - intros Hroom. rewrite decide_False in H by lia.
    rewrite decide_False in H by (intros [? _]; congruence).
    rewrite H. simpl. rewrite <- Hu. apply upsert_record.
  - intros Hnone Hlast. unfold db'. rewrite live_count_fresh_insert by done. lia.
Qed.

(** A meeting for two: the host asks to join and gets in; the guest asks to
    join, which fills the meeting, and is refused by [join-room]. *)
Lemma http_join_then_join_room_witness :
  let db0 := mkDb {["m" := Scenario.meeting_of_1 2]} [] in
  ∃ db1 db2,
    (post_join 0 1 "m" db0).1 = db1 ∧
    record_of (hub_db (on_join_room_auth 5 "a" "m" (three_sockets db1))) "m" 1
    = Some (mkParticipant "m" 1 (Some "a") 5 None) ∧
    (post_join 1 2 "m" db1).1 = db2 ∧
    on_join_room_auth 6 "b" "m" (three_sockets db2)
    = emit_error "b" "Meeting is full" (three_sockets db2).
Proof.
  intros db0.
  set (db1 := (post_join 0 1 "m" db0).1). set (db2 := (post_join 1 2 "m" db1).1).
  exists db1, db2. split; [done|].
  destruct (http_join_then_join_room 0 1 "m" db0 db1 (post_join 0 1 "m" db0).2
              (Scenario.meeting_of_1 2) (hub_io (three_sockets db1))
              (hub_sockets (three_sockets db1)) "a"
              (mkSocketWithAuth 1 "a@x.org" None) 5)
    as (_ & H1 & _); try reflexivity.
  destruct (http_join_then_join_room 1 2 "m" db1 db2 (post_join 1 2 "m" db1).2
              (Scenario.meeting_of_1 2) (hub_io (three_sockets db2))
              (hub_sockets (three_sockets db2)) "b"
              (mkSocketWithAuth 2 "b@x.org" None) 6)
    as (H2 & _ & _); try reflexivity.
  split; [apply H1; reflexivity|]. split; [done|].
  apply H2. vm_compute. discriminate.
Defined.

Lemma members_leave s room io room' :
  members (leave s room io) room'
  = if decide (room = room') then members io room ∖ {[s]} else members io room'.
Proof.
  unfold leave, members at 1. simpl. rewrite lookup_alter.
  case_decide; [subst|done]. unfold members.
  destruct (adapter io !! room'); simpl; [done|]. set_solver.
Qed.

(** X24.  [kick-user] by a socket whose user is not the host of the meeting
    it joined only sends that socket an "error".  By the host, it sends
    "kicked" to the target socket, whatever meeting that one is in, and
    takes it out of the socket.io room of the meeting; the directory is not
    touched, so the row of the kicked user stays live. *)
Theorem kick_user_effect s target hub sock mid m :
  hub_sockets hub !! s = Some sock →
  meetingId sock = Some mid →
  mid ≠ EmptyString →
  meetings (hub_db hub) !! mid = Some m →
  let hub' := on_kick_user s target hub in
  (host_id m ≠ userId sock →
   hub' = emit_error s "Not authorized to kick users" hub) ∧
  (host_id m = userId sock →
   hub_db hub' = hub_db hub ∧
   hub_sockets hub' = hub_sockets hub ∧
   connected (hub_io hub') = connected (hub_io hub) ∧
   (target ∈ connected (hub_io hub) →
    target ∈ members (hub_io hub) target →
    inbox target (hub_io hub')
    = inbox target (hub_io hub) ++
      [mkPacket target "kicked" (message "You have been removed from the meeting")] ∧
    (∀ room, members (hub_io hub') room
             = if decide (mid = room) then members (hub_io hub) mid ∖ {[target]}
               else members (hub_io hub) room))).
Proof.
  intros Hs Hmid Hne Hm hub'. unfold hub', on_kick_user.
  rewrite Hs, Hmid, decide_False, Hm by done. split.
  - intros Hhost. by rewrite decide_True.
  - intros Hhost. rewrite decide_False by (intros ?; done). simpl.
    split; [done|]. split; [done|]. split; [by case_decide|].
    intros Hconn Hown. rewrite decide_True by done. split.
    + unfold inbox, leave. simpl. fold (inbox target (io_to_emit target "kicked"
        (message "You have been removed from the meeting") (hub_io hub))).
      unfold io_to_emit. apply inbox_send_once; [apply NoDup_elements| |done].
      by apply elem_of_elements.
    + intros room. by rewrite members_leave.
Qed.

(** The host on socket "a" kicks socket "b"; a guest cannot kick. *)
Lemma kick_user_effect_witness :
  let hub := on_join_room_auth 6 "b" "m" (on_join_room_auth 5 "a" "m"
               (three_sockets (db_with_guest 10))) in
  on_kick_user "b" "a" hub = emit_error "b" "Not authorized to kick users" hub ∧
  hub_db (on_kick_user "a" "b" hub) = hub_db hub ∧
  record_of (hub_db (on_kick_user "a" "b" hub)) "m" 2
  = Some (mkParticipant "m" 2 (Some "b") 6 None) ∧
  members (hub_io (on_kick_user "a" "b" hub)) "m" = {["a"%string]}.
Proof.
  intros hub.
  destruct (kick_user_effect "b" "a" hub (mkSocketWithAuth 2 "b@x.org" (Some "m")) "m"
              (Scenario.meeting_of_1 10)) as [Hb _];
    [reflexivity|reflexivity|discriminate|reflexivity|].
  destruct (kick_user_effect "a" "b" hub (mkSocketWithAuth 1 "a@x.org" (Some "m")) "m"
              (Scenario.meeting_of_1 10)) as [_ Ha];
    [reflexivity|reflexivity|discriminate|reflexivity|].
  destruct (Ha eq_refl) as (Hdb & _ & _ & Hrooms).
  destruct Hrooms as [_ Hrooms]; [vm_compute; reflexivity|vm_compute; reflexivity|].
  split; [apply Hb; discriminate|]. split; [exact Hdb|].
  split; [rewrite Hdb; reflexivity|].
  rewrite (Hrooms "m"). vm_compute. reflexivity.
Defined.

(** X25.  When a socket that joined a meeting disconnects, exactly the rows
    that carry its socket id are stamped as left; a row that a later socket
    of the same user has taken over stays live.  The socket object is gone
    and the socket is in no room.  For a socket that never joined, the
    directory is not touched and nothing is sent. *)
Theorem disconnect_marks_rows_of_socket now s hub sock :
  hub_sockets hub !! s = Some sock →
  let hub' := on_disconnect_auth now s hub in
  hub_sockets hub' !! s = None ∧
  s ∉ connected (hub_io hub') ∧
  (∀ room, s ∉ members (hub_io hub') room) ∧
  (meetingId sock = None →
   hub_db hub' = hub_db hub ∧ wire (hub_io hub') = wire (hub_io hub)) ∧
  (∀ mid, meetingId sock = Some mid → mid ≠ EmptyString →
     meetings (hub_db hub') = meetings (hub_db hub) ∧
     ∀ mid' uid,
       record_of (hub_db hub') mid' uid
       = (λ p, if decide (socket_id p = Some s) then set_left now p else p)
           <$> record_of (hub_db hub) mid' uid).
Proof.
  intros Hs hub'. unfold hub', on_disconnect_auth. rewrite Hs.
  assert (∀ room, s ∉ members (close s (hub_io hub)) room) as Hclosed.
  { intros room. rewrite members_close. set_solver. }
  destruct (meetingId sock) as [mid|] eqn:Hmid.
  - destruct (decide (mid = EmptyString)) as [->|Hne]; simpl.
    + split; [apply lookup_delete_eq|]. split; [set_solver|].
      split; [done|]. split; [done|]. by intros ? [= <-] ?.
    + split; [apply lookup_delete_eq|]. split; [set_solver|].
      split; [done|]. split; [done|]. intros ? [= <-] _. split; [done|].
      intros mid' uid. rewrite record_of_update_left. by destruct (hub_db hub).
  - simpl. split; [apply lookup_delete_eq|]. split; [set_solver|].
    split; [done|]. split; [done|]. done.
Qed.

(** User 2 joins from socket "b", then again from socket "c" of the same
    user; "b" disconnects, then "c". *)
Lemma disconnect_marks_rows_of_socket_witness :
  let hub0 := on_connection_auth "c" 2 "b@x.org"
                (on_connection_auth "b" 2 "b@x.org" (empty_hub (db_with_guest 10))) in
  let hub1 := on_join_room_auth 6 "c" "m" (on_join_room_auth 5 "b" "m" hub0) in
  record_of (hub_db (on_disconnect_auth 7 "b" hub1)) "m" 2
  = Some (mkParticipant "m" 2 (Some "c") 6 None) ∧
  record_of (hub_db (on_disconnect_auth 8 "c" (on_disconnect_auth 7 "b" hub1))) "m" 2
  = Some (mkParticipant "m" 2 (Some "c") 6 (Some 8)).
Proof.
  intros hub0 hub1.
  destruct (disconnect_marks_rows_of_socket 7 "b" hub1
              (mkSocketWithAuth 2 "b@x.org" (Some "m")) eq_refl)
    as (_ & _ & _ & _ & Hb).
  destruct (Hb "m" eq_refl) as [_ Hb']; [discriminate|].
  destruct (disconnect_marks_rows_of_socket 8 "c" (on_disconnect_auth 7 "b" hub1)
              (mkSocketWithAuth 2 "b@x.org" (Some "m")) eq_refl)
    as (_ & _ & _ & _ & Hc).
  destruct (Hc "m" eq_refl) as [_ Hc']; [discriminate|].
  split.
  - rewrite Hb'. reflexivity.
  - rewrite Hc', Hb'. reflexivity.
Defined.

(** X26.  The handshake of a socket and [authenticateToken] agree: a token
    without spaces is accepted by the socket middleware exactly when the
    header "Bearer <token>" gets past the HTTP middleware, for the same
    user id and email. *)
Theorem handshake_agrees_with_authenticateToken lib now token db uid em :
  Js.includes " " token = false →
  handshake lib now (Some token) db = inr (uid, em) ↔
  authenticateToken lib now (Some ("Bearer " +:+ token)) db = Next uid em.
Proof.
  intros Hsp. rewrite authenticateToken_next.
  destruct (bearer_is_second_word "Bearer" token eq_refl Hsp) as (Hb & _ & _).
  change ("Bearer" +:+ " " +:+ token) with ("Bearer " +:+ token) in Hb.
  rewrite Hb. unfold handshake. split.
  - case_decide; [done|].
    destruct (jwt_verify _ _ _ _) as [[uid' em']|] eqn:Hv; [|done].
    destruct (user_by_id db uid') as [u|] eqn:Hu; [|by case_decide].
    destruct (is_verified u) eqn:Hver; [|done].
    intros [= <- <-]. by exists token, u.
  - intros (t & u & [= <-] & Hne & -> & -> & ->). by rewrite decide_False.
Qed.

Lemma handshake_agrees_with_authenticateToken_witness :
  let db := mkAccountDb [mkUser 1 "a@x.org" "h" "Ann" true] 1 [] [] [] in
  handshake toy_lib 10 (Some "jwt") db = inr (1, "a@x.org"%string) ∧
  authenticateToken toy_lib 10 (Some "Bearer jwt") db = Next 1 "a@x.org".
Proof.
  intros db. split; [reflexivity|].
  apply (handshake_agrees_with_authenticateToken toy_lib 10 "jwt" db 1 "a@x.org"
           eq_refl).
  reflexivity.
Defined.

(** X27.  The socket listeners keep [UNIQUE(meeting_id, user_id)] as well:
    the upsert of [join-room] and the update of [disconnect] never leave two
    rows for one (meeting, user) pair. *)
Theorem listeners_keep_rows_unique hub :
  NoDup ((λ p, (meeting_id p, user_id p)) <$> meeting_participants (hub_db hub)) →
  (∀ now s roomId,
     NoDup ((λ p, (meeting_id p, user_id p))
              <$> meeting_participants (hub_db (on_join_room_auth now s roomId hub)))) ∧
  (∀ s target,
     NoDup ((λ p, (meeting_id p, user_id p))
              <$> meeting_participants (hub_db (on_kick_user s target hub)))) ∧
  (∀ now s,
     NoDup ((λ p, (meeting_id p, user_id p))
              <$> meeting_participants (hub_db (on_disconnect_auth now s hub)))).
Proof.
  intros Hnd. split; [|split].
  - intros. unfold on_join_room_auth.
    destruct (hub_sockets hub !! s) as [sock|]; [|done].
    destruct (meetings (hub_db hub) !! roomId) as [m|]; [|done].
    repeat (case_decide; [done|]). simpl. by apply upsert_keys.
  - intros. unfold on_kick_user.
    destruct (hub_sockets hub !! s) as [sock|]; [|done].
    destruct (meetingId sock) as [mid|]; [|done].
    case_decide; [done|].
    destruct (meetings (hub_db hub) !! mid) as [m|]; [|done].
    by case_decide.
  - intros. unfold on_disconnect_auth.
    destruct (hub_sockets hub !! s) as [sock|]; [|done].
    destruct (meetingId sock) as [mid|]; [|done].
    case_decide; [done|]. simpl. by rewrite update_left_keys.
Qed.

Lemma listeners_keep_rows_unique_witness :
  NoDup ((λ p, (meeting_id p, user_id p))
           <$> meeting_participants
                 (hub_db (on_join_room_auth 5 "b" "m" (three_sockets (db_with_guest 10))))).
Proof.
  apply (listeners_keep_rows_unique (three_sockets (db_with_guest 10))).
  apply NoDup_singleton.
Defined.

End HubFacts.

(** * Creating a meeting and reading its details *)

Module MeetingFacts.
Import Accounts AuthRoutes AuthMiddleware MeetingRoutesAuth Scenario2.

(** X28.  [/create] with a fresh id and a capacity that fits an INTEGER
    stores an active meeting hosted by the caller and touches nothing else;
    from then on only the caller can end it, a second [/create] with the
    same id fails with 500, and when the capacity is zero or less every
    join request is refused as full. *)
Theorem created_meeting_belongs_to_creator lib now userId title meetingId n db :
  meetings db !! meetingId = None →
  -2147483648 <= n <= 2147483647 →
  ∃ db',
    post_create lib now userId title meetingId (Some n) db
    = (db', mkMeetingResponse 201
              (Created
                 (mkCreatedMeeting meetingId title
                    (Js.template (FRONTEND_URL lib) +:+ "/meeting/" +:+ meetingId)
                    (meeting_code meetingId) n now))) ∧
    meetings db' !! meetingId = Some (mkMeeting userId title "active" n now None) ∧
    (∀ mid, mid ≠ meetingId → meetings db' !! mid = meetings db !! mid) ∧
    meeting_participants db' = meeting_participants db ∧
    (∀ now' other, other ≠ userId →
       post_end now' other meetingId db'
       = (db', mkResponse 403 (ErrorBody "Only host can end the meeting"))) ∧
    (∀ now', code (post_end now' userId meetingId db').2 = 200) ∧
    (∀ now' title' n' who,
       post_create lib now' who title' meetingId n' db'
       = (db', mkMeetingResponse 500 (MeetingError "Failed to create meeting"))) ∧
    (n <= 0 →
     ∀ now' who,
       post_join now' who meetingId db'
       = (db', mkResponse 400 (ErrorBody "Meeting is full"))).
Proof.
  intros Hfresh Hn. unfold post_create at 1.
  rewrite decide_False by lia. rewrite Hfresh. eexists. split; [done|].
  set (m := mkMeeting userId title "active" n now None).
  set (db' := mkDb (<[meetingId := m]> (meetings db)) (meeting_participants db)).
  assert (meetings db' !! meetingId = Some m) as Hm by apply lookup_insert_eq.
  split; [done|]. split; [by intros; apply lookup_insert_ne|]. split; [done|].
  split; [|split; [|split]].
  - intros now' other Hother.
    pose proof (post_end_cases now' other meetingId db') as H. rewrite Hm in H.
    by rewrite decide_False in H by (simpl; congruence).
  - intros now'.
    pose proof (post_end_cases now' userId meetingId db') as H. rewrite Hm in H.
    rewrite decide_True in H by done. by rewrite H.
  - intros. unfold post_create. destruct n' as [n'|]; [|done].
    case_decide; [done|]. by rewrite Hm.
  - intros Hzero now' who.
    pose proof (post_join_cases now' who meetingId db') as H. rewrite Hm in H.
    rewrite decide_False in H by done.
    rewrite decide_True in H; [done|]. unfold current_participants. simpl. lia.
Qed.

Lemma created_meeting_belongs_to_creator_witness :
  ∃ db',
    post_create toy_lib 7 1 "standup" "3f2a9c1e-0b7d-4e2a-9c51-aa10bb20cc30" (Some 0)
                empty_db
    = (db', mkMeetingResponse 201
              (Created
                 (mkCreatedMeeting "3f2a9c1e-0b7d-4e2a-9c51-aa10bb20cc30" "standup"
                    "https://app/meeting/3f2a9c1e-0b7d-4e2a-9c51-aa10bb20cc30"
                    "3F2A9C1E" 0 7))) ∧
    post_join 8 1 "3f2a9c1e-0b7d-4e2a-9c51-aa10bb20cc30" db'
    = (db', mkResponse 400 (ErrorBody "Meeting is full")).
Proof.
  destruct (created_meeting_belongs_to_creator toy_lib 7 1 "standup"
              "3f2a9c1e-0b7d-4e2a-9c51-aa10bb20cc30" 0 empty_db eq_refl)
    as (db' & H1 & _ & _ & _ & _ & _ & _ & H2); [lia|].
  exists db'. split; [exact H1|]. apply H2. lia.
Defined.

(** X29.  What [/details] reports decides what [/join] answers: for an
    ended meeting both answer 400 "Meeting has ended"; otherwise the details
    carry the live count the join checks, so the join is refused as full
    exactly when the reported count has reached the reported capacity, and
    goes through otherwise. *)
Theorem details_agree_with_join now userId meetingId accounts db m host :
  meetings db !! meetingId = Some m →
  user_by_id accounts (host_id m) = Some host →
  (status m = "ended"%string →
   get_details userId meetingId accounts db
   = mkMeetingResponse 400 (MeetingError "Meeting has ended") ∧
   (post_join now userId meetingId db).2
   = mkResponse 400 (ErrorBody "Meeting has ended")) ∧
  (status m ≠ "ended"%string →
   ∃ d, get_details userId meetingId accounts db = mkMeetingResponse 200 (Details d) ∧
        md_hostName d = name host ∧
        md_isHost d = bool_decide (host_id m = userId) ∧
        (md_currentParticipants d >= md_maxParticipants d ↔
         (post_join now userId meetingId db).2
         = mkResponse 400 (ErrorBody "Meeting is full")) ∧
        (md_currentParticipants d < md_maxParticipants d ↔
         code (post_join now userId meetingId db).2 = 200)).
Proof.
  intros Hm Hhost.
  pose proof (post_join_cases now userId meetingId db) as H. rewrite Hm in H.
  unfold get_details. rewrite Hm, Hhost. split.
  - intros Hst. rewrite !decide_True in * by done. by rewrite H.
  - intros Hst. rewrite !decide_False in * by done.
    eexists. split; [done|]. simpl. split; [done|]. split; [done|].
    destruct (decide (_ >= _)) as [Hfull|Hroom]; rewrite H; simpl.
    + split; [tauto|]. split; [lia|done].
    + split; [|split; [done|lia]]. split; [lia|done].
Qed.

Lemma details_agree_with_join_witness :
  let accounts := mkAccountDb [mkUser 1 "a@x.org" "h" "Ann" true] 1 [] [] [] in
  ∃ d,
    get_details 3 "m" accounts (db_with_guest 1) = mkMeetingResponse 200 (Details d) ∧
    md_hostName d = "Ann"%string ∧
    md_currentParticipants d = 1 ∧
    (post_join 9 3 "m" (db_with_guest 1)).2
    = mkResponse 400 (ErrorBody "Meeting is full").
Proof.
  intros accounts.
  destruct (details_agree_with_join 9 3 "m" accounts (db_with_guest 1)
              (Scenario.meeting_of_1 1) (mkUser 1 "a@x.org" "h" "Ann" true)
              eq_refl eq_refl) as [_ H].
  destruct H as (d & Hd & Hname & _ & Hfull & _); [discriminate|].
  eexists. split; [reflexivity|]. split; [reflexivity|]. split; [reflexivity|].
  apply Hfull. injection Hd as <-. simpl. vm_compute. discriminate.
Defined.

End MeetingFacts.
